(** * Crowd-count server: frame dispatch, alerting and overlay rendering

    A shallow embedding of [server.js]: the Socket.IO handlers ([frame],
    [updateThreshold]), the bounded dispatcher [processFrameAndEmit] with its
    backlog [queue] and slot counter [inFlight], the alert check, the count
    extraction of both call sites, and the two canvas renderers
    [drawDotsOnImage] and [generateHeatmap].

    Modelling choices.
    - Node runs the handlers on one event loop.  A handler, or the part of an
      [async] function between two [await]s, is one atomic transition of a
      state record; what the outside world decides (payloads, the inference
      response, image decoding, the clock) arrives in the transition's label.
    - [socket.emit], [io.emit] and the start of the HTTP call to the inference
      service are appended to a trace.  The trace also records the four
      operations on the dispatcher state ([inFlight++], [inFlight--],
      [queue.push], [queue.shift]); each admitted frame is tagged with a fresh
      number so that its events can be told apart.
    - Integer-valued JavaScript numbers (counters, counts, clock readings in
      milliseconds) are [Z]; [NaN] is added where [parseInt] can produce it.
      The geometry of a detection is IEEE binary64, as in JavaScript.
    - The limit [MAX_CONCURRENT] comes from the environment through [Number]
      and can be any double; the code only compares it with the integer
      counter, so it is [NaN], an infinity, or a finite value given as a
      rational, and the comparisons are exact.
    - Strings are byte strings; the text on the canvas is kept symbolic.
    - The inference response is typed: an optional integer count and an
      optional array whose entries are [null] or objects with optional
      numeric fields.  An exception raised while the response is read has
      the effect of a failed call and is covered by that outcome.
    - The [testModel] handler, the upload route and the loop over the frames
      of a video touch neither the backlog nor the slot counter and are
      modelled as functions of their own.  [console.log], [console.warn]
      and [console.error] are left out. *)

From Stdlib Require Import ZArith QArith List String Ascii Bool Lia Lqa Floats
  DecimalString.
From Stdlib Require DecimalPos.
From Equations Require Import Equations.
Import ListNotations.

Set Warnings "-inexact-float,-register-all".

Open Scope string_scope.
Open Scope list_scope.
Open Scope bool_scope.
Open Scope Z_scope.

(* ===================================================================== *)
(** * JavaScript values received over the socket *)
(* ===================================================================== *)

(** Payloads are JSON values.  An object is an association list in which the
    first binding of a key is the one that counts. *)
Inductive jsval :=
| JUndefined
| JNull
| JBool (b : bool)
| JNum (z : Z)
| JStr (s : string)
| JArr (elems : list jsval)
| JObj (fields : list (string * jsval)).

(** Number values as far as the alert threshold needs them. *)
Inductive num :=
| NaN
| Int (z : Z).

(** ToBoolean. *)
Definition truthy (v : jsval) : bool :=
  match v with
  | JUndefined | JNull => false
  | JBool b => b
  | JNum z => negb (z =? 0)
  | JStr s => negb (String.eqb s EmptyString)
  | JArr _ | JObj _ => true
  end.

Fixpoint assoc (k : string) (fields : list (string * jsval)) : jsval :=
  match fields with
  | [] => JUndefined
  | (k', v) :: rest => if String.eqb k k' then v else assoc k rest
  end.

(** [v.k] for a key that is no built-in property.  Reading a property of
    [undefined] or [null] throws; every use below is guarded by [truthy v]. *)
Definition get (v : jsval) (k : string) : jsval :=
  match v with
  | JObj fields => assoc k fields
  | _ => JUndefined
  end.

(** ToString.  A number prints in decimal (Number::toString does so for
    integers below 10^21 in magnitude). *)
Fixpoint ToString (v : jsval) : string :=
  match v with
  | JUndefined => "undefined"
  | JNull => "null"
  | JBool true => "true"
  | JBool false => "false"
  | JNum z => NilZero.string_of_int (Z.to_int z)
  | JStr s => s
  | JArr elems =>
      (fix join (l : list jsval) : string :=
         match l with
         | [] => EmptyString
         | e :: rest =>
             let s := match e with
                      | JUndefined | JNull => EmptyString
                      | _ => ToString e
                      end in
             match rest with
             | [] => s
             | _ => String.append s (String.append "," (join rest))
             end
         end) elems
  | JObj _ => "[object Object]"
  end.

(** ** parseInt *)

(** White space and line terminators, as far as they are single bytes. *)

Definition is_StrWhiteSpaceChar (c : ascii) : bool :=
  let n := nat_of_ascii c in
  ((9 <=? n) && (n <=? 13))%nat || (n =? 32)%nat.

Fixpoint trim_start (s : string) : string :=
  match s with
  | String c rest => if is_StrWhiteSpaceChar c then trim_start rest else s
  | EmptyString => s
  end.

Definition digit_value (c : ascii) : option Z :=
  let n := Z.of_nat (nat_of_ascii c) in
  if (48 <=? n) && (n <=? 57) then Some (n - 48)
  else if (97 <=? n) && (n <=? 122) then Some (n - 87)
  else if (65 <=? n) && (n <=? 90) then Some (n - 55)
  else None.

(** The longest prefix of radix-[R] digits, read as a number; [acc] is [None]
    until the first digit has been seen. *)
Fixpoint parse_digits (R : Z) (s : string) (acc : option Z) : option Z :=
  match s with
  | EmptyString => acc
  | String c rest =>
      match digit_value c with
      | Some d =>
          if d <? R
          then parse_digits R rest
                 (Some (R * match acc with Some a => a | None => 0 end + d))
          else acc
      | None => acc
      end
  end.

Definition strip_sign (s : string) : Z * string :=
  match s with
  | String "-" rest => (-1, rest)
  | String "+" rest => (1, rest)
  | _ => (1, s)
  end.

Definition strip_hex_prefix (s : string) : Z * string :=
  match s with
  | String "0" (String "x" rest) => (16, rest)
  | String "0" (String "X" rest) => (16, rest)
  | _ => (10, s)
  end.

(** [parseInt(v)] with no radix argument. *)
Definition parseInt (v : jsval) : num :=
  let '(sign, s1) := strip_sign (trim_start (ToString v)) in
  let '(R, s2) := strip_hex_prefix s1 in
  match parse_digits R s2 None with
  | Some n => Int (sign * n)
  | None => NaN
  end.

(* ===================================================================== *)
(** * Results of fallible calls *)
(* ===================================================================== *)

(** A call returns a value or throws an [Error] with the given [message]. *)
Inductive result (A : Type) :=
| Ok (a : A)
| Throw (message : string).
Arguments Ok {A} a.
Arguments Throw {A} message.

(** [err.message || fallback] *)
Definition message_or (message fallback : string) : string :=
  if String.eqb message EmptyString then fallback else message.

(* ===================================================================== *)
(** * Inference service response *)
(* ===================================================================== *)

Module Pred.
(** One entry of [output.predictions.predictions]; a field is [None] when
    the service left it out. *)
Record t := mk {
  x : option float;
  y : option float;
  width : option float;
  height : option float;
  confidence : option float }.
End Pred.

(** An entry of the predictions array: [null], or an object. *)
Inductive pred :=
| PNull
| PObj (p : Pred.t).

(** [count_objects] is [None] when missing; [predictions] stands for
    [output.predictions?.predictions] and is [None] when that is undefined. *)
Record output := mkOutput {
  count_objects : option Z;
  predictions : option (list pred) }.

Record response := mkResponse {
  outputs : option (list output) }.

Definition empty_output : output :=
  {| count_objects := None; predictions := None |}.

(** [rf.outputs?.[0] || {}] (and [?? {}] in the upload route) *)
Definition first_output (rf : response) : output :=
  match outputs rf with
  | Some (o :: _) => o
  | _ => empty_output
  end.

(** [output.predictions?.predictions || []] *)
Definition predictions_of (o : output) : list pred :=
  match predictions o with
  | Some l => l
  | None => []
  end.

(** [output.count_objects || predictions.length], as computed by
    [processFrameAndEmit] and by the [testModel] handler. *)
Definition frame_count (o : output) : Z :=
  match count_objects o with
  | Some c => if c =? 0 then Z.of_nat (List.length (predictions_of o)) else c
  | None => Z.of_nat (List.length (predictions_of o))
  end.

(** [output.count_objects ?? 0], as computed by [POST /predict]. *)
Definition predict_count (o : output) : Z :=
  match count_objects o with
  | Some c => c
  | None => 0
  end.

(* ===================================================================== *)
(** * Canvas and the two renderers *)
(* ===================================================================== *)

Module Img.
(** What [sharp] and [loadImage] make of an image buffer. *)
Record t := mk {
  width : float;
  height : float }.
End Img.

(** Text drawn on the canvas: [`People: ${n}`] and [`${Math.round(v)}%`]. *)
Inductive text :=
| PeopleText (n : nat)
| PercentText (v : float).

Inductive fillStyle :=
| Color (css : string)
| RadialGradient (x0 y0 r0 x1 y1 r1 : float) (stops : list (float * string)).

(** Calls on the 2D context, in the order they are made.  The canvas returned
    by a renderer is this list; [toBuffer] encodes what the calls drew. *)
Inductive cmd :=
| createCanvas (w h : float)
| set_globalAlpha (a : float)
| drawImage (img : Img.t) (dx dy : float)
| set_fillStyle (s : fillStyle)
| set_font (f : string)
| fillRect (x y w h : float)
| fillText (t : text) (x y : float)
| beginPath
| arc (x y radius startAngle endAngle : float)
| fill.

Definition canvas := list cmd.

Definition Math_PI : float := 3.141592653589793%float.

(** [Math.max] / [Math.min] of two numbers: [NaN] if either is, and [+0]
    counts as larger than [-0]. *)
Definition Math_max (a b : float) : float :=
  if PrimFloat.is_nan a || PrimFloat.is_nan b then nan
  else if PrimFloat.ltb a b then b
  else if PrimFloat.ltb b a then a
  else if PrimFloat.get_sign a then b else a.

Definition Math_min (a b : float) : float :=
  if PrimFloat.is_nan a || PrimFloat.is_nan b then nan
  else if PrimFloat.ltb a b then a
  else if PrimFloat.ltb b a then b
  else if PrimFloat.get_sign a then a else b.

(** A missing field reads as [undefined], which arithmetic turns into [NaN]. *)
Definition to_number (v : option float) : float :=
  match v with
  | Some f => f
  | None => nan
  end.

(** ToBoolean of a field: [undefined], [0], [-0] and [NaN] are falsy. *)
Definition truthy_number (v : option float) : bool :=
  match v with
  | Some f => negb (PrimFloat.eqb f 0) && negb (PrimFloat.is_nan f)
  | None => false
  end.

(** The field is absent, or is the number zero. *)
Definition missing_or_zero (v : option float) : Prop :=
  match v with
  | None => True
  | Some f => PrimFloat.eqb f 0 = true
  end.

(** [Math.min(20, Math.max(5, Math.sqrt(pred.width * pred.height) / 5))] *)
Definition dotSize (p : Pred.t) : float :=
  Math_min 20 (Math_max 5
    (PrimFloat.div
       (PrimFloat.sqrt (PrimFloat.mul (to_number (Pred.width p))
                                      (to_number (Pred.height p))))
       5)).

Definition red : fillStyle := Color "rgba(255, 0, 0, 0.8)".

Definition TypeError_null (prop : string) : string :=
  String.append "Cannot read properties of null (reading '"
    (String.append prop "')").

(** Body of the [forEach] callback of [drawDotsOnImage], inside its [try]. *)
Definition draw_dot (ctx : canvas) (pr : pred) : result canvas :=
  match pr with
  | PNull => Throw (TypeError_null "x")
  | PObj p =>
      let x := Pred.x p in
      let y := Pred.y p in
      let dotSize := dotSize p in
      if truthy_number x && truthy_number y then
        let x := to_number x in
        let y := to_number y in
        Ok (ctx ++
            [ beginPath;
              arc x y dotSize 0 (PrimFloat.mul Math_PI 2);
              fill;
              set_fillStyle (Color "white");
              set_font "12px Arial";
              fillText (PercentText (PrimFloat.mul (to_number (Pred.confidence p)) 100))
                       (PrimFloat.add (PrimFloat.add x dotSize) 2) y;
              set_fillStyle red ])
      else Ok ctx
  end.

(** [try { ... } catch (err) { console.warn(...) }] around that body. *)
Definition draw_dot_guarded (ctx : canvas) (pr : pred) : canvas :=
  match draw_dot ctx pr with
  | Ok ctx' => ctx'
  | Throw _ => ctx
  end.

(** [drawDotsOnImage(imageBuffer, predictions)].  The buffer is given by the
    outcome of decoding it; a decoding error is logged and rethrown. *)
Definition drawDotsOnImage (imageBuffer : result Img.t) (predictions : list pred)
  : result canvas :=
  match imageBuffer with
  | Throw message => Throw message
  | Ok img =>
      let ctx :=
        [ createCanvas (Img.width img) (Img.height img);
          drawImage img 0 0;
          set_fillStyle (Color "rgba(0, 0, 0, 0.7)");
          fillRect 10 10 150 60;
          set_fillStyle (Color "white");
          set_font "bold 24px Arial";
          fillText (PeopleText (List.length predictions)) 20 40;
          set_fillStyle red ] in
      Ok (fold_left draw_dot_guarded predictions ctx)
  end.

(** Body of the [forEach] callback of [generateHeatmap]. *)
Definition draw_heat (img : Img.t) (ctx : canvas) (pr : pred) : result canvas :=
  match pr with
  | PNull => Throw (TypeError_null "x")
  | PObj p =>
      if truthy_number (Pred.x p) && truthy_number (Pred.y p) then
        let x := to_number (Pred.x p) in
        let y := to_number (Pred.y p) in
        let radius :=
          PrimFloat.mul (Math_min (Img.width img) (Img.height img)) 0.1 in
        let grd :=
          RadialGradient x y 0 x y radius
            [ (0%float, "rgba(255, 0, 0, 0.8)");
              (0.5%float, "rgba(255, 255, 0, 0.4)");
              (1%float, "rgba(0, 0, 255, 0)") ] in
        Ok (ctx ++
            [ set_fillStyle grd;
              beginPath;
              arc x y radius 0 (PrimFloat.mul Math_PI 2);
              fill ])
      else Ok ctx
  end.

(** [predictions.forEach(callback)] with no handler inside: the first
    exception leaves the loop. *)
Fixpoint forEach (callback : canvas -> pred -> result canvas)
  (predictions : list pred) (ctx : canvas) : result canvas :=
  match predictions with
  | [] => Ok ctx
  | pr :: rest =>
      match callback ctx pr with
      | Ok ctx' => forEach callback rest ctx'
      | Throw message => Throw message
      end
  end.

(** [generateHeatmap(imageBuffer, predictions)]; its [catch] logs and
    rethrows whatever the body threw. *)
Definition generateHeatmap (imageBuffer : result Img.t) (predictions : list pred)
  : result canvas :=
  match imageBuffer with
  | Throw message => Throw message
  | Ok img =>
      let ctx :=
        [ createCanvas (Img.width img) (Img.height img);
          set_globalAlpha 0.7;
          drawImage img 0 0;
          set_globalAlpha 1.0 ] in
      forEach (draw_heat img) predictions ctx
  end.

(* ===================================================================== *)
(** * Alert check *)
(* ===================================================================== *)

Definition ALERT_COOLDOWN : Z := 5 * 60 * 1000.

(** [count >= threshold]; every comparison with [NaN] is false. *)
Definition ge_num (count : Z) (threshold : num) : bool :=
  match threshold with
  | NaN => false
  | Int t => t <=? count
  end.

(** [count >= ALERT_THRESHOLD && Date.now() - lastAlertTime > ALERT_COOLDOWN],
    with [now] the reading of the clock. *)
Definition alert_due (threshold : num) (lastAlertTime count now : Z) : bool :=
  ge_num count threshold && (ALERT_COOLDOWN <? now - lastAlertTime).

(* ===================================================================== *)
(** * Dispatcher state, messages and trace *)
(* ===================================================================== *)

(** A backlog entry [{ socket: clientSocket, frameBase64 }]. *)
Record item := mkItem {
  socket : nat;
  frameBase64 : jsval }.

(** Where an admitted frame is suspended: at [await callRoboflowWithBase64],
    or at the [await]s of the two renderers, holding the locals it computed. *)
Inductive phase :=
| AwaitInference
| AwaitRender (count : Z) (preds : list pred).

Record task := mkTask {
  t_id : nat;
  t_item : item;
  t_phase : phase }.

Inductive message :=
| ack
| prediction_fail (error : string)
| prediction_ok (count : Z) (annotatedImage heatmapImage : canvas)
    (preds : list pred) (threshold : num)
| alert (count : Z) (threshold : num)
| thresholdUpdated (threshold : num).

Inductive event :=
| Acquire (id : nat) (it : item)
| Release (id : nat)
| Push (it : item)
| Shift (it : item)
| Call (id : nat) (it : item)
| socket_emit (sock : nat) (m : message)
| io_emit (m : message).

Record state := mkState {
  inFlight : Z;
  queue : list item;
  ALERT_THRESHOLD : num;
  lastAlertTime : Z;
  pending : list task;
  next_id : nat;
  trace : list event }.

Definition init : state :=
  {| inFlight := 0;
     queue := [];
     ALERT_THRESHOLD := Int 15;
     lastAlertTime := 0;
     pending := [];
     next_id := 0%nat;
     trace := [] |}.

Definition set_inFlight (n : Z) (st : state) : state :=
  mkState n (queue st) (ALERT_THRESHOLD st) (lastAlertTime st)
          (pending st) (next_id st) (trace st).

Definition set_queue (q : list item) (st : state) : state :=
  mkState (inFlight st) q (ALERT_THRESHOLD st) (lastAlertTime st)
          (pending st) (next_id st) (trace st).

Definition set_ALERT_THRESHOLD (t : num) (st : state) : state :=
  mkState (inFlight st) (queue st) t (lastAlertTime st)
          (pending st) (next_id st) (trace st).

Definition set_lastAlertTime (t : Z) (st : state) : state :=
  mkState (inFlight st) (queue st) (ALERT_THRESHOLD st) t
          (pending st) (next_id st) (trace st).

Definition set_pending (p : list task) (st : state) : state :=
  mkState (inFlight st) (queue st) (ALERT_THRESHOLD st) (lastAlertTime st)
          p (next_id st) (trace st).

Definition set_next_id (n : nat) (st : state) : state :=
  mkState (inFlight st) (queue st) (ALERT_THRESHOLD st) (lastAlertTime st)
          (pending st) n (trace st).

Definition log (e : event) (st : state) : state :=
  mkState (inFlight st) (queue st) (ALERT_THRESHOLD st) (lastAlertTime st)
          (pending st) (next_id st) (trace st ++ [e]).

Definition remove_nth {A : Type} (k : nat) (l : list A) : list A :=
  firstn k l ++ skipn (S k) l.

Definition update_nth {A : Type} (k : nat) (a : A) (l : list A) : list A :=
  firstn k l ++ a :: skipn (S k) l.

Definition inspect {A : Type} (a : A) : {b : A | a = b} := exist _ a eq_refl.

(** The alert check shared by [processFrameAndEmit] and [POST /predict]:
    [now] is the clock read by the condition, [now'] the one stored. *)
Definition check_alert (count now now' : Z) (st : state) : state :=
  if alert_due (ALERT_THRESHOLD st) (lastAlertTime st) count now
  then log (io_emit (alert count (ALERT_THRESHOLD st)))
         (set_lastAlertTime now' st)
  else st.

(** The [updateThreshold] handler. *)
Definition on_updateThreshold (data : jsval) (st : state) : state :=
  if truthy data && truthy (get data "threshold")
  then
    let st := set_ALERT_THRESHOLD (parseInt (get data "threshold")) st in
    log (io_emit (thresholdUpdated (ALERT_THRESHOLD st))) st
  else st.

(** What [POST /predict] does to the shared state once the service has
    answered; its HTTP response is not part of the trace. *)
Definition on_predict (rf : response) (now now' : Z) (st : state) : state :=
  let output := first_output rf in
  let count := predict_count output in
  check_alert count now now' st.

(** Inputs of the event loop: the two socket events, the answer of the
    service to [POST /predict], and the settling of what the [k]-th suspended
    frame awaits.  [now] and [now'] are the two readings of [Date.now()] in
    the alert check. *)
Inductive label :=
| frame (sock : nat) (data : jsval)
| updateThreshold (data : jsval)
| predict (rf : response) (now now' : Z)
| inference_done (k : nat) (rf : result response) (now now' : Z)
| render_done (k : nat) (dots heat : result Img.t).

(* ===================================================================== *)
(** * Upload file names *)
(* ===================================================================== *)

(** [\w]: a letter, a digit or the underscore. *)
Definition is_word_char (c : ascii) : bool :=
  let n := nat_of_ascii c in
  ((48 <=? n) && (n <=? 57))%nat || ((65 <=? n) && (n <=? 90))%nat
  || ((97 <=? n) && (n <=? 122))%nat || (n =? 95)%nat.

(** A character the class [[^\w.-]] does not match. *)
Definition is_safe_char (c : ascii) : bool :=
  is_word_char c || (nat_of_ascii c =? 46)%nat || (nat_of_ascii c =? 45)%nat.

(** [file.originalname.replace(/[^\w.-]/g, '_')] *)
Fixpoint sanitize (originalname : string) : string :=
  match originalname with
  | EmptyString => EmptyString
  | String c rest =>
      String (if is_safe_char c then c else "_"%char) (sanitize rest)
  end.

(** The name multer stores an upload under: [`${Date.now()}-${safe}`]. *)
Definition upload_filename (now : Z) (originalname : string) : string :=
  String.append (ToString (JNum now))
    (String.append "-" (sanitize originalname)).

(* ===================================================================== *)
(** * Counting the frames of a video *)
(* ===================================================================== *)

(** [rf.outputs?.[0]?.count_objects || 0], the count of [processVideoFrames]
    and of the [processVideoFrame] handler. *)
Definition video_count (rf : response) : Z :=
  match outputs rf with
  | Some (o :: _) =>
      match count_objects o with
      | Some c => if c =? 0 then 0 else c
      | None => 0
      end
  | _ => 0
  end.

(** The broadcast [videoFrameProcessed]. *)
Record video_event := videoFrameProcessed {
  frameIndex : Z;
  video_frame_count : Z;
  totalFrames : nat }.

(** What the outside world decides for one extracted frame file: whether
    [fs.readFileSync] returns, what the inference call gives, and whether
    [fs.unlinkSync] returns. *)
Record frame_file := mkFrameFile {
  read_file : result unit;
  inference : result response;
  unlink_file : result unit }.

(** The array [frameCounts] and the events broadcast so far. *)
Record video_state := mkVideoState {
  frameCounts : list Z;
  video_emitted : list video_event }.

(** [frameCounts.push(count)] *)
Definition frameCounts_push (count : Z) (vs : video_state) : video_state :=
  mkVideoState (frameCounts vs ++ [count]) (video_emitted vs).

(** The inner [try]/[catch] of the loop over the frame files. *)
Definition video_frame_body (total : nat) (f : frame_file) (vs : video_state)
  : video_state :=
  match inference f with
  | Throw _ => frameCounts_push 0 vs
  | Ok rf =>
      let count := video_count rf in
      let vs := frameCounts_push count vs in
      let vs :=
        mkVideoState (frameCounts vs)
          (video_emitted vs ++
             [videoFrameProcessed
                (Z.of_nat (List.length (frameCounts vs)) - 1) count total]) in
      match unlink_file f with
      | Ok _ => vs
      | Throw _ => frameCounts_push 0 vs
      end
  end.

(** [for (const file of frameFiles)]: a failing [readFileSync] is outside the
    inner [try] and ends the loop. *)
Fixpoint video_frames_loop (total : nat) (files : list frame_file)
  (vs : video_state) : video_state * result unit :=
  match files with
  | [] => (vs, Ok tt)
  | f :: rest =>
      match read_file f with
      | Throw message => (vs, Throw message)
      | Ok _ => video_frames_loop total rest (video_frame_body total f vs)
      end
  end.

(** The [end] callback of [processVideoFrames], from the sorted list of
    frame files on: the events it broadcasts, and the array it resolves with
    or the error it rejects with.  [rmdir] is the outcome of
    [fs.rmdirSync(tempDir)]. *)
Definition processVideoFrames (files : list frame_file) (rmdir : result unit)
  : list video_event * result (list Z) :=
  let '(vs, r) :=
    video_frames_loop (List.length files) files (mkVideoState [] []) in
  match r with
  | Throw message => (video_emitted vs, Throw message)
  | Ok _ =>
      match rmdir with
      | Throw message => (video_emitted vs, Throw message)
      | Ok _ => (video_emitted vs, Ok (frameCounts vs))
      end
  end.

Definition is_Ok {A : Type} (r : result A) : bool :=
  match r with
  | Ok _ => true
  | Throw _ => false
  end.

(** The entry of [frameCounts] a frame file stands for: its count, or 0 when
    the inference call failed. *)
Definition frame_file_count (f : frame_file) : Z :=
  match inference f with
  | Ok rf => video_count rf
  | Throw _ => 0
  end.

(* ===================================================================== *)
(** * Reading a canvas *)
(* ===================================================================== *)

Definition is_arc (c : cmd) : bool :=
  match c with
  | arc _ _ _ _ _ => true
  | _ => false
  end.

(** The detection has coordinates both renderers accept. *)
Definition drawable (pr : pred) : bool :=
  match pr with
  | PNull => false
  | PObj p => truthy_number (Pred.x p) && truthy_number (Pred.y p)
  end.

Definition is_null (pr : pred) : bool :=
  match pr with
  | PNull => true
  | PObj _ => false
  end.

(* ===================================================================== *)
(** * The upload route *)
(* ===================================================================== *)

(** The JSON body of the answer of [POST /predict]. *)
Inductive predict_body :=
| predict_error (error : string)
| predict_success (originalImage : string) (count : Z)
    (annotatedImage heatmapImage : canvas) (preds : list pred).

(** [res.status(status).json(body)]; a plain [res.json] has status 200. *)
Record http_response := mkHttp {
  status : Z;
  body : predict_body }.

(** [POST /predict].  [file] is [req.file]: absent, or the stored file name
    with the outcome of reading the file back; [r], [dots] and [heat] are
    what the inference call and the two decodings would give. *)
Definition predict_route (file : option (string * result unit))
  (r : result response) (dots heat : result Img.t) (now now' : Z)
  (st : state) : http_response * state :=
  match file with
  | None => (mkHttp 400 (predict_error "No image uploaded"), st)
  | Some (filename, Throw message) =>
      (mkHttp 500 (predict_error (message_or message "Prediction failed")), st)
  | Some (filename, Ok _) =>
      match r with
      | Throw message =>
          (mkHttp 500 (predict_error (message_or message "Prediction failed")),
           st)
      | Ok rf =>
          let st := on_predict rf now now' st in
          let output := first_output rf in
          let count := predict_count output in
          match drawDotsOnImage dots (predictions_of output) with
          | Throw message =>
              (mkHttp 500
                 (predict_error (message_or message "Prediction failed")), st)
          | Ok processedImage =>
              match generateHeatmap heat (predictions_of output) with
              | Throw message =>
                  (mkHttp 500
                     (predict_error (message_or message "Prediction failed")),
                   st)
              | Ok heatmapImage =>
                  (mkHttp 200
                     (predict_success (String.append "/uploads/" filename)
                        count processedImage heatmapImage
                        (predictions_of output)), st)
              end
          end
      end
  end.

(* ===================================================================== *)
(** * The concurrency limit *)
(* ===================================================================== *)

(** The value of [Number(process.env.MAX_CONCURRENT || 2)].  [Number] of a
    string can be any double: a finite one, which is a rational, [NaN] (for
    a string that is not a numeral) or an infinity. *)
Inductive number :=
| Finite (q : Q)
| NotANumber
| PlusInfinity
| MinusInfinity.

(** [n >= m], for the integer [n]. *)
Definition ge_limit (n : Z) (m : number) : bool :=
  match m with
  | Finite q => Qle_bool q (inject_Z n)
  | NotANumber => false
  | PlusInfinity => false
  | MinusInfinity => true
  end.

(** [n < m], for the integer [n]. *)
Definition lt_limit (n : Z) (m : number) : bool :=
  match m with
  | Finite q => negb (Qle_bool q (inject_Z n))
  | NotANumber => false
  | PlusInfinity => true
  | MinusInfinity => false
  end.

(** [n > m], for the integer [n]. *)
Definition gt_limit (n : Z) (m : number) : bool :=
  match m with
  | Finite q => negb (Qle_bool (inject_Z n) q)
  | NotANumber => false
  | PlusInfinity => false
  | MinusInfinity => true
  end.

(** The limit when the environment does not set it, [Number(2)]. *)
Definition default_MAX_CONCURRENT : number := Finite 2.

(** A possible [Buffer.from]: strings and arrays are accepted, anything else
    is a [TypeError]. *)
Definition Buffer_from_strict (v : jsval) : option string :=
  match v with
  | JStr _ | JArr _ => None
  | _ => Some "The first argument must be of type string or an instance of Buffer, ArrayBuffer, or Array or an Array-like Object."
  end.

Section Dispatcher.

(** The value of [Number(process.env.MAX_CONCURRENT || 2)]. *)
Variable MAX_CONCURRENT : number.

(** [Buffer.from(frameBase64, 'base64')]: [None] when it returns a buffer,
    [Some message] when it throws. *)
Variable Buffer_from : jsval -> option string.

Definition queue_push (it : item) (st : state) : state :=
  log (Push it) (set_queue (queue st ++ [it]) st).

(** [inFlight++]; the frame gets the next tag. *)
Definition slot_acquire (it : item) (st : state) : state :=
  log (Acquire (next_id st) it)
    (set_next_id (S (next_id st)) (set_inFlight (inFlight st + 1) st)).

(** The request is sent and the function suspends at its first [await]. *)
Definition call_inference (id : nat) (it : item) (st : state) : state :=
  log (Call id it)
    (set_pending (pending st ++ [mkTask id it AwaitInference]) st).

(** The [catch] block. *)
Definition catch_emit (message : string) (st : state) : state :=
  log (io_emit (prediction_fail (message_or message "Inference error"))) st.

(** The [finally] block up to [queue.shift()]; it returns the entry that
    is to be processed next, if any. *)
Definition finally_release (id : nat) (st : state) : state * option item :=
  let st := log (Release id) (set_inFlight (inFlight st - 1) st) in
  match queue st with
  | next :: rest =>
      if lt_limit (inFlight st) MAX_CONCURRENT
      then (log (Shift next) (set_queue rest st), Some next)
      else (st, None)
  | [] => (st, None)
  end.

(** [processFrameAndEmit(clientSocket, frameBase64)] up to its first
    [await].  When [Buffer.from] throws, [catch] and [finally] run at once
    and the next backlog entry is processed by the nested call. *)
Equations? processFrameAndEmit (it : item) (st : state) : state
  by wf (List.length (queue st)) lt :=
  processFrameAndEmit it st with ge_limit (inFlight st) MAX_CONCURRENT => {
    | true := queue_push it st;
    | false with Buffer_from (frameBase64 it) => {
        | None := call_inference (next_id st) it (slot_acquire it st);
        | Some message
            with inspect (finally_release (next_id st)
                            (catch_emit message (slot_acquire it st))) => {
            | exist _ (st', Some next) E := processFrameAndEmit next st';
            | exist _ (st', None) E := st' } } }.
Proof.
  unfold finally_release in E. cbn in E.
  destruct (queue st) as [|n r]; [discriminate|].
  destruct (lt_limit _ _) in E; inversion E; subst. cbn. lia.
Qed.

(** The [finally] block. *)
Definition finally_block (id : nat) (st : state) : state :=
  match finally_release id st with
  | (st', Some next) => processFrameAndEmit next st'
  | (st', None) => st'
  end.

(** The [frame] handler. *)
Definition on_frame (sock : nat) (data : jsval) (st : state) : state :=
  if negb (truthy data) || negb (truthy (get data "imageBase64"))
  then log (socket_emit sock (prediction_fail "No frame provided")) st
  else if 60 <? Z.of_nat (List.length (queue st))
  then log (socket_emit sock (prediction_fail "Server busy, frame dropped")) st
  else processFrameAndEmit (mkItem sock (get data "imageBase64"))
         (log (socket_emit sock ack) st).

(** [processFrameAndEmit] resumed with the outcome of the inference call. *)
Definition on_inference_done (k : nat) (r : result response) (now now' : Z)
  (st : state) : state :=
  match nth_error (pending st) k with
  | Some (mkTask id it AwaitInference) =>
      match r with
      | Ok rf =>
          let output := first_output rf in
          let preds := predictions_of output in
          let count := frame_count output in
          let st := check_alert count now now' st in
          set_pending
            (update_nth k (mkTask id it (AwaitRender count preds)) (pending st))
            st
      | Throw message =>
          finally_block id
            (catch_emit message
               (set_pending (remove_nth k (pending st)) st))
      end
  | _ => st
  end.

(** [processFrameAndEmit] resumed once the renderers have settled; [dots]
    and [heat] are what decoding the frame gave each of them. *)
Definition on_render_done (k : nat) (dots heat : result Img.t) (st : state)
  : state :=
  match nth_error (pending st) k with
  | Some (mkTask id it (AwaitRender count preds)) =>
      let st := set_pending (remove_nth k (pending st)) st in
      let st :=
        match drawDotsOnImage dots preds with
        | Throw message => catch_emit message st
        | Ok processedImage =>
            match generateHeatmap heat preds with
            | Throw message => catch_emit message st
            | Ok heatmapImage =>
                log (io_emit (prediction_ok count processedImage heatmapImage
                                preds (ALERT_THRESHOLD st))) st
            end
        end in
      finally_block id st
  | _ => st
  end.

Definition step (l : label) (st : state) : state :=
  match l with
  | frame sock data => on_frame sock data st
  | updateThreshold data => on_updateThreshold data st
  | predict rf now now' => on_predict rf now now' st
  | inference_done k r now now' => on_inference_done k r now now' st
  | render_done k dots heat => on_render_done k dots heat st
  end.

Definition run (ls : list label) (st : state) : state :=
  fold_left (fun s l => step l s) ls st.


(** ** Reading the trace *)

Definition is_acquire (id : nat) (e : event) : bool :=
  match e with
  | Acquire i _ => Nat.eqb i id
  | _ => false
  end.

Definition is_release (id : nat) (e : event) : bool :=
  match e with
  | Release i => Nat.eqb i id
  | _ => false
  end.

(** How often frame [id] took a slot, and how often it gave one back. *)
Definition acquired (id : nat) (tr : list event) : nat :=
  List.length (filter (is_acquire id) tr).

Definition released (id : nat) (tr : list event) : nat :=
  List.length (filter (is_release id) tr).

(** Frame [id] is suspended at an [await]. *)
Definition is_pending (id : nat) (st : state) : bool :=
  existsb (fun t => Nat.eqb (t_id t) id) (pending st).

(** Entries put on the backlog, and entries taken from it, in order. *)
Definition pushed (tr : list event) : list item :=
  flat_map (fun e => match e with Push it => [it] | _ => [] end) tr.

Definition shifted (tr : list event) : list item :=
  flat_map (fun e => match e with Shift it => [it] | _ => [] end) tr.

(** Slots held after the events of [tr]. *)
Definition held (tr : list event) : Z :=
  fold_left (fun n e => match e with
                        | Acquire _ _ => n + 1
                        | Release _ => n - 1
                        | _ => n
                        end) tr 0.

Arguments acquired : simpl never.
Arguments released : simpl never.
Arguments pushed : simpl never.
Arguments shifted : simpl never.
Arguments held : simpl never.

Definition is_running (id : nat) (running : option nat) : bool :=
  match running with
  | Some r => Nat.eqb r id
  | None => false
  end.

(** Slot accounting.  [running] is the frame, if any, whose code is executing
    between its [inFlight++] and the end of its [finally] block: it holds a
    slot but is not suspended. *)
Record slots_inv (running : option nat) (st : state) : Prop := mk_slots_inv {
  inv_count :
    inFlight st =
      Z.of_nat (List.length (pending st))
      + match running with Some _ => 1 | None => 0 end;
  inv_fresh :
    Forall (fun t => (t_id t < next_id st)%nat) (pending st);
  inv_nodup :
    NoDup (map t_id (pending st));
  inv_running :
    forall r, running = Some r ->
      (r < next_id st)%nat /\ is_pending r st = false;
  inv_acquired :
    forall id, acquired id (trace st) =
      if (id <? next_id st)%nat then 1%nat else 0%nat;
  inv_released :
    forall id, released id (trace st) =
      if (id <? next_id st)%nat && negb (is_pending id st)
         && negb (is_running id running)
      then 1%nat else 0%nat }.

(** [n] slots are within the limit: none is held, or the guard of
    [processFrameAndEmit] let the last one in, [n - 1 >= MAX_CONCURRENT]
    being false. *)
Definition within_limit (n : Z) : Prop :=
  n <= 0 \/ ge_limit (n - 1) MAX_CONCURRENT = false.

(** Every prefix of the trace holds a number of slots within the limit. *)
Definition never_above (tr : list event) : Prop :=
  forall p s, tr = p ++ s -> within_limit (held p).

(** The counter is the number of slots the trace holds, and was never
    beyond the limit. *)
Definition slots_bounded (st : state) : Prop :=
  held (trace st) = inFlight st /\ never_above (trace st).

(** The backlog is what was pushed and not yet shifted, oldest first. *)
Definition fifo (st : state) : Prop :=
  pushed (trace st) = shifted (trace st) ++ queue st.

(** Where the reading of a trace stands: right after a [queue.shift()],
    right after the [inFlight++] that follows it, or elsewhere. *)
Inductive handover :=
| Elsewhere
| AfterShift
| AfterAcquire.

Definition handover_step (a : list item * handover) (e : event)
  : list item * handover :=
  match e, snd a with
  | Shift _, _ => (fst a, AfterShift)
  | Acquire _ _, AfterShift => (fst a, AfterAcquire)
  | Call _ it, AfterAcquire => (fst a ++ [it], Elsewhere)
  | _, _ => (fst a, Elsewhere)
  end.

Definition handover_scan (tr : list event) : list item * handover :=
  fold_left handover_step tr ([], Elsewhere).

(** The backlog entries handed to the inference call, in the order of the
    calls: the items of the [Call]s that come right after a [queue.shift()]
    and the [inFlight++] of the shifted entry. *)
Definition dispatched_from_backlog (tr : list event) : list item :=
  fst (handover_scan tr).


Arguments handover_scan : simpl never.



(** [socket.emit] and [io.emit] *)
Definition is_emit (e : event) : bool :=
  match e with
  | socket_emit _ _ | io_emit _ => true
  | _ => false
  end.

(** ** More readings of the trace *)

Definition count_events (f : event -> bool) (tr : list event) : nat :=
  List.length (filter f tr).

Arguments count_events : simpl never.

Definition is_socket_emit (e : event) : bool :=
  match e with
  | socket_emit _ _ => true
  | _ => false
  end.

(** An event sent to the socket [sock] alone. *)
Definition is_socket_emit_to (sock : nat) (e : event) : bool :=
  match e with
  | socket_emit s _ => Nat.eqb s sock
  | _ => false
  end.

(** The sockets that were sent an event of their own, in the order of the
    events. *)
Definition replied (tr : list event) : list nat :=
  flat_map (fun e => match e with socket_emit s _ => [s] | _ => [] end) tr.

Definition is_ack (e : event) : bool :=
  match e with
  | socket_emit _ ack => true
  | _ => false
  end.

(** A broadcast [prediction], successful or not. *)
Definition is_prediction (e : event) : bool :=
  match e with
  | io_emit (prediction_ok _ _ _ _ _) | io_emit (prediction_fail _) => true
  | _ => false
  end.

Definition is_alert (e : event) : bool :=
  match e with
  | io_emit (alert _ _) => true
  | _ => false
  end.

Definition is_any_release (e : event) : bool :=
  match e with
  | Release _ => true
  | _ => false
  end.

Definition is_frame_label (l : label) : bool :=
  match l with
  | frame _ _ => true
  | _ => false
  end.

(** A [frame] submission made on the socket [sock]. *)
Definition is_frame_from (sock : nat) (l : label) : bool :=
  match l with
  | frame s _ => Nat.eqb s sock
  | _ => false
  end.

(** The sockets the [frame] submissions were made on, in the order of the
    submissions. *)
Definition submitters (ls : list label) : list nat :=
  flat_map (fun l => match l with frame s _ => [s] | _ => [] end) ls.

(** One of the three answers of the [frame] handler. *)
Definition is_reply (m : message) : Prop :=
  m = ack \/ m = prediction_fail "No frame provided"
  \/ m = prediction_fail "Server busy, frame dropped".

(** What a socket is sent directly: the acknowledgement or one of the two
    rejections of the [frame] handler. *)
Definition is_frame_reply (e : event) : Prop :=
  match e with
  | socket_emit _ m =>
      m = ack \/ m = prediction_fail "No frame provided"
      \/ m = prediction_fail "Server busy, frame dropped"
  | _ => True
  end.

(** Both clock readings of the label, if it has any, lie within one cooldown
    after [a]. *)
Definition clocks_within (a : Z) (l : label) : Prop :=
  match l with
  | predict _ now now' | inference_done _ _ now now' =>
      a <= now <= a + ALERT_COOLDOWN /\ a <= now' <= a + ALERT_COOLDOWN
  | _ => True
  end.

(** ** The [testModel] handler *)

(** The [testPrediction] event sent to the requesting socket. *)
Inductive test_message :=
| testPrediction_fail (error : string)
| testPrediction_ok (testType : jsval) (count : Z) (annotatedImage : canvas)
    (preds : list pred).

(** The handler, given what the inference call and the decoding of the image
    would give.  It is independent of the dispatcher: it takes no slot and
    reads no shared state. *)
Definition on_testModel (data : jsval) (r : result response)
  (dots : result Img.t) : test_message :=
  if negb (truthy data) || negb (truthy (get data "imageBase64"))
  then testPrediction_fail "No test data provided"
  else
    match Buffer_from (get data "imageBase64") with
    | Some message => testPrediction_fail (message_or message "Test failed")
    | None =>
        match r with
        | Throw message => testPrediction_fail (message_or message "Test failed")
        | Ok rf =>
            let output := first_output rf in
            let preds := predictions_of output in
            let count := frame_count output in
            match drawDotsOnImage dots preds with
            | Throw message =>
                testPrediction_fail (message_or message "Test failed")
            | Ok processedImage =>
                testPrediction_ok (get data "type") count processedImage preds
            end
        end
    end.

(* ===================================================================== *)
(** * Properties of the dispatcher *)
(* ===================================================================== *)

(** ** Comparing the counter with the limit *)

Lemma Qle_bool_inject_mono q n n' :
  Qle_bool q (inject_Z n) = true -> n <= n' -> Qle_bool q (inject_Z n') = true.
Proof.
  rewrite !Qle_bool_iff. intros H Hn.
  apply Qle_trans with (inject_Z n); [exact H|]. now rewrite <- Zle_Qle.
Qed.

Lemma ge_limit_mono m n n' :
  ge_limit n m = true -> n <= n' -> ge_limit n' m = true.
Proof.
  destruct m as [q| | |]; cbn; try easy. apply Qle_bool_inject_mono.
Qed.

Lemma ge_limit_false_mono m n n' :
  ge_limit n m = false -> n' <= n -> ge_limit n' m = false.
Proof.
  intros H Hn. destruct (ge_limit n' m) eqn:E; [|reflexivity].
  rewrite (ge_limit_mono _ _ _ E Hn) in H. discriminate.
Qed.

Lemma lt_limit_not_ge m n : lt_limit n m = true -> ge_limit n m = false.
Proof.
  destruct m as [q| | |]; cbn; try easy. now destruct (Qle_bool _ _).
Qed.

Lemma lt_limit_mono m n n' :
  lt_limit n m = true -> n' <= n -> lt_limit n' m = true.
Proof.
  destruct m as [q| | |]; cbn; try easy. intros H Hn.
  destruct (Qle_bool q (inject_Z n')) eqn:E; [|reflexivity].
  rewrite (Qle_bool_inject_mono _ _ _ E Hn) in H. discriminate.
Qed.

(** Unless the limit is [NaN], [n >= m] is the negation of [n < m]. *)
Lemma ge_limit_not_lt m n n' :
  ge_limit n' m = true -> ge_limit n m = negb (lt_limit n m).
Proof.
  destruct m as [q| | |]; cbn; try easy. now rewrite negb_involutive.
Qed.

Lemma ge_limit_integer k n : ge_limit n (Finite (inject_Z k)) = (k <=? n).
Proof.
  cbn. unfold Qle_bool. cbn. now rewrite !Z.mul_1_r.
Qed.

Lemma lt_limit_integer k n : lt_limit n (Finite (inject_Z k)) = (n <? k).
Proof.
  cbn. unfold Qle_bool. cbn. rewrite !Z.mul_1_r. now rewrite Z.ltb_antisym.
Qed.

Lemma gt_limit_integer k n : gt_limit n (Finite (inject_Z k)) = (k <? n).
Proof.
  cbn. unfold Qle_bool. cbn. rewrite !Z.mul_1_r. now rewrite Z.ltb_antisym.
Qed.

Lemma ge_limit_false_below q n :
  ge_limit (n - 1) (Finite q) = false -> (inject_Z n < q + 1)%Q.
Proof.
  cbn. intros H. apply Qnot_le_lt. intros Hle.
  assert (Qle_bool q (inject_Z (n - 1)) = true); [|congruence].
  apply Qle_bool_iff. change (n - 1) with (n + (-1)). rewrite inject_Z_plus.
  change (inject_Z (-1)) with (-(1))%Q.
  generalize dependent (inject_Z n). intros x Hle. lra.
Qed.
(** ** The equations of the dispatcher *)

Lemma processFrameAndEmit_eq it st :
  processFrameAndEmit it st =
    if ge_limit (inFlight st) MAX_CONCURRENT then queue_push it st
    else match Buffer_from (frameBase64 it) with
         | None => call_inference (next_id st) it (slot_acquire it st)
         | Some message =>
             finally_block (next_id st) (catch_emit message (slot_acquire it st))
         end.
Proof.
  funelim (processFrameAndEmit it st).
  - now rewrite Heq.
  - now rewrite Heq0, Heq.
  - rewrite Heq0, Heq. unfold finally_block. now rewrite E.
  - rewrite Heq0, Heq. unfold finally_block. now rewrite E.
Qed.

Lemma finally_block_eq id st :
  finally_block id st =
    let st1 := log (Release id) (set_inFlight (inFlight st - 1) st) in
    match queue st with
    | next :: rest =>
        if lt_limit (inFlight st - 1) MAX_CONCURRENT
        then processFrameAndEmit next (log (Shift next) (set_queue rest st1))
        else st1
    | [] => st1
    end.
Proof.
  unfold finally_block, finally_release. cbn.
  destruct (queue st) as [|next rest]; [reflexivity|].
  now destruct (lt_limit (inFlight st - 1) MAX_CONCURRENT).
Qed.

(** ** A proof rule for [processFrameAndEmit] and its [finally] block

    [I] holds when the function is entered, [J id] while frame [id] runs
    between [inFlight++] and [finally], [Q] when control returns to the
    event loop. *)
Section Rule.

Variables (I Q : state -> Prop) (J : nat -> state -> Prop).

Hypothesis rule_push : forall it st,
  I st -> ge_limit (inFlight st) MAX_CONCURRENT = true ->
  Q (queue_push it st).
Hypothesis rule_acquire : forall it st,
  I st -> ge_limit (inFlight st) MAX_CONCURRENT = false ->
  J (next_id st) (slot_acquire it st).
Hypothesis rule_call : forall id it st,
  J id st -> Q (call_inference id it st).
Hypothesis rule_catch : forall id message st,
  J id st -> J id (catch_emit message st).
Hypothesis rule_release : forall id st,
  J id st ->
  queue st = [] \/ lt_limit (inFlight st - 1) MAX_CONCURRENT = false ->
  Q (log (Release id) (set_inFlight (inFlight st - 1) st)).
Hypothesis rule_shift : forall id st next rest,
  J id st -> queue st = next :: rest ->
  lt_limit (inFlight st - 1) MAX_CONCURRENT = true ->
  I (log (Shift next)
       (set_queue rest (log (Release id) (set_inFlight (inFlight st - 1) st)))).

Lemma rule_bounded n :
  (forall it st, (List.length (queue st) < n)%nat ->
     I st -> Q (processFrameAndEmit it st)) /\
  (forall id st, (List.length (queue st) < n)%nat ->
     J id st -> Q (finally_block id st)).
Proof.
  induction n as [|n [IHp _]].
  - split; intros; lia.
  - assert (Hfin : forall id st, (List.length (queue st) < S n)%nat ->
                     J id st -> Q (finally_block id st)).
    { intros id st Hlen HJ. rewrite finally_block_eq. cbv zeta.
      destruct (queue st) as [|next rest] eqn:Hq.
      - apply rule_release; auto.
      - destruct (lt_limit (inFlight st - 1) MAX_CONCURRENT) eqn:Hlt.
        + apply IHp.
          * cbn. cbn in Hlen. lia.
          * eapply rule_shift; eauto.
        + apply rule_release; auto. }
    split; [|exact Hfin].
    intros it st Hlen HI. rewrite processFrameAndEmit_eq.
    destruct (ge_limit (inFlight st) MAX_CONCURRENT) eqn:Hfull.
    + now apply rule_push.
    + destruct (Buffer_from (frameBase64 it)) as [message|].
      * apply Hfin; [exact Hlen|]. apply rule_catch. now apply rule_acquire.
      * apply rule_call. now apply rule_acquire.
Qed.

Lemma rule_processFrameAndEmit it st :
  I st -> Q (processFrameAndEmit it st).
Proof. apply (rule_bounded (S (List.length (queue st)))). lia. Qed.

Lemma rule_finally_block id st :
  J id st -> Q (finally_block id st).
Proof. apply (rule_bounded (S (List.length (queue st)))). lia. Qed.

End Rule.

(** ** Slot accounting *)

(** Projections of an updated state, with the arithmetic left alone. *)
Ltac state_simpl :=
  cbn -[Nat.ltb Nat.leb Nat.eqb Z.add Z.sub Z.of_nat Z.ltb Z.leb] in *.

Lemma acquired_snoc id tr e :
  acquired id (tr ++ [e]) =
    (acquired id tr + if is_acquire id e then 1 else 0)%nat.
Proof.
  unfold acquired. rewrite filter_app, length_app. cbn.
  now destruct (is_acquire id e).
Qed.

Lemma released_snoc id tr e :
  released id (tr ++ [e]) =
    (released id tr + if is_release id e then 1 else 0)%nat.
Proof.
  unfold released. rewrite filter_app, length_app. cbn.
  now destruct (is_release id e).
Qed.

Lemma existsb_id_fresh n (l : list task) id :
  Forall (fun t => (t_id t < n)%nat) l -> (n <= id)%nat ->
  existsb (fun t => Nat.eqb (t_id t) id) l = false.
Proof.
  induction 1 as [|t l Ht _ IH]; intros Hid; cbn; [reflexivity|].
  rewrite IH by assumption.
  destruct (Nat.eqb_spec (t_id t) id); [lia|reflexivity].
Qed.

Lemma existsb_id_In (l : list task) id :
  existsb (fun t => Nat.eqb (t_id t) id) l = true <-> In id (map t_id l).
Proof.
  rewrite existsb_exists, in_map_iff. split; intros [t [H1 H2]]; exists t.
  - apply Nat.eqb_eq in H2. auto.
  - split; [assumption|]. now apply Nat.eqb_eq.
Qed.

(** A change that touches neither the counter, nor the suspended frames, nor
    the slot events of the trace. *)
Lemma slots_inv_neutral running st st' :
  inFlight st' = inFlight st ->
  map t_id (pending st') = map t_id (pending st) ->
  next_id st' = next_id st ->
  (forall id, acquired id (trace st') = acquired id (trace st)) ->
  (forall id, released id (trace st') = released id (trace st)) ->
  slots_inv running st -> slots_inv running st'.
Proof.
  intros Hn Hp Hi Ha Hr [H1 H2 H3 H4 H5 H6].
  assert (Hlen : List.length (pending st') = List.length (pending st)).
  { now rewrite <- (length_map t_id), Hp, length_map. }
  assert (Hpend : forall id, is_pending id st' = is_pending id st).
  { intros id. unfold is_pending.
    destruct (existsb _ (pending st)) eqn:E.
    - apply existsb_id_In. rewrite Hp. now apply existsb_id_In.
    - destruct (existsb _ (pending st')) eqn:E'; [|reflexivity].
      apply existsb_id_In in E'. rewrite Hp in E'.
      apply existsb_id_In in E'. congruence. }
  constructor.
  - now rewrite Hn, Hlen.
  - rewrite Hi. rewrite Forall_forall in *. intros t Ht.
    assert (In (t_id t) (map t_id (pending st))) as Hin
      by (rewrite <- Hp; now apply in_map).
    apply in_map_iff in Hin as [u [Hu1 Hu2]]. rewrite <- Hu1. auto.
  - now rewrite Hp.
  - intros r Hr'. rewrite Hi, Hpend. auto.
  - intros id. now rewrite Ha, Hi.
  - intros id. now rewrite Hr, Hi, Hpend.
Qed.

Lemma slots_inv_log running e st :
  (forall id, is_acquire id e = false) ->
  (forall id, is_release id e = false) ->
  slots_inv running st -> slots_inv running (log e st).
Proof.
  intros Ha Hr. apply slots_inv_neutral; try reflexivity; intros id; cbn.
  - now rewrite acquired_snoc, Ha, Nat.add_0_r.
  - now rewrite released_snoc, Hr, Nat.add_0_r.
Qed.

Lemma slots_inv_acquire it st :
  slots_inv None st -> slots_inv (Some (next_id st)) (slot_acquire it st).
Proof.
  intros [H1 H2 H3 H4 H5 H6]. constructor; state_simpl.
  - lia.
  - eapply Forall_impl; [|exact H2]. cbn. intros; lia.
  - exact H3.
  - intros r [= <-]. split; [lia|].
    unfold is_pending. state_simpl. eapply existsb_id_fresh; eauto.
  - intros id. rewrite acquired_snoc, H5. state_simpl.
    destruct (Nat.ltb_spec id (next_id st)), (Nat.eqb_spec (next_id st) id),
      (Nat.ltb_spec id (S (next_id st))); lia.
  - intros id. rewrite released_snoc, H6. state_simpl.
    rewrite Nat.add_0_r. unfold is_pending. state_simpl.
    destruct (Nat.ltb_spec id (next_id st)), (Nat.eqb_spec (next_id st) id),
      (Nat.ltb_spec id (S (next_id st))); try lia; state_simpl;
      try reflexivity; now rewrite ?andb_false_r, ?andb_true_r.
Qed.

Lemma slots_inv_call id it st :
  slots_inv (Some id) st -> slots_inv None (call_inference id it st).
Proof.
  intros [H1 H2 H3 H4 H5 H6]. destruct (H4 id eq_refl) as [Hid Hnp].
  constructor; state_simpl.
  - rewrite length_app. cbn. lia.
  - apply Forall_app. split; [assumption|]. now repeat constructor.
  - rewrite map_app. cbn. apply NoDup_app; [assumption|repeat constructor; cbn; tauto|].
    intros a Ha [<-|[]]. apply existsb_id_In in Ha.
    unfold is_pending in Hnp. congruence.
  - discriminate.
  - intros i. now rewrite acquired_snoc, H5, Nat.add_0_r.
  - intros i. rewrite released_snoc, H6. state_simpl. rewrite Nat.add_0_r.
    unfold is_pending. state_simpl. rewrite existsb_app. cbn.
    rewrite orb_false_r, negb_orb, andb_true_r. now rewrite andb_assoc.
Qed.

Lemma slots_inv_release id st :
  slots_inv (Some id) st ->
  slots_inv None (log (Release id) (set_inFlight (inFlight st - 1) st)).
Proof.
  intros [H1 H2 H3 H4 H5 H6]. destruct (H4 id eq_refl) as [Hid Hnp].
  constructor; state_simpl; try assumption.
  - lia.
  - discriminate.
  - intros i. now rewrite acquired_snoc, H5, Nat.add_0_r.
  - intros i. rewrite released_snoc, H6. state_simpl. unfold is_pending in *. state_simpl.
    destruct (Nat.eqb_spec id i) as [<-|Hne]; state_simpl.
    + rewrite Hnp. apply Nat.ltb_lt in Hid. rewrite Hid. reflexivity.
    + rewrite andb_true_r. now rewrite Nat.add_0_r.
Qed.

Lemma remove_nth_middle {A : Type} (l1 l2 : list A) a :
  remove_nth (List.length l1) (l1 ++ a :: l2) = l1 ++ l2.
Proof.
  unfold remove_nth. induction l1 as [|b l1 IH]; cbn; [reflexivity|].
  f_equal. exact IH.
Qed.

Lemma update_nth_middle {A : Type} (l1 l2 : list A) a b :
  update_nth (List.length l1) b (l1 ++ a :: l2) = l1 ++ b :: l2.
Proof.
  unfold update_nth. induction l1 as [|c l1 IH]; cbn; [reflexivity|].
  f_equal. exact IH.
Qed.

(** The frame at position [k] stops being suspended and runs. *)
Lemma slots_inv_resume k id it ph st :
  nth_error (pending st) k = Some (mkTask id it ph) ->
  slots_inv None st ->
  slots_inv (Some id) (set_pending (remove_nth k (pending st)) st).
Proof.
  intros Hk [H1 H2 H3 H4 H5 H6].
  destruct (nth_error_split _ _ Hk) as [l1 [l2 [Hl Hlen]]].
  assert (Hrem : remove_nth k (pending st) = l1 ++ l2).
  { rewrite Hl, <- Hlen. apply remove_nth_middle. }
  rewrite Hrem. unfold is_pending in *. rewrite Hl in *.
  rewrite map_app in H3. cbn in H3.
  constructor; state_simpl.
  - rewrite length_app in *. cbn in H1. lia.
  - apply Forall_app in H2 as [Ha Hb]. apply Forall_app. split; [assumption|].
    now inversion Hb.
  - rewrite map_app. eapply NoDup_remove_1; eauto.
  - intros r [= <-]. split.
    + apply Forall_app in H2 as [_ Hb]. now inversion Hb.
    + destruct (existsb _ (l1 ++ l2)) eqn:E; [|reflexivity].
      apply existsb_id_In in E. rewrite map_app in E.
      apply NoDup_remove_2 in H3. contradiction.
  - exact H5.
  - intros i. rewrite H6, !existsb_app. state_simpl.
    destruct (existsb _ l1), (existsb _ l2), (Nat.eqb id i), (i <? next_id st)%nat;
      reflexivity.
Qed.

(** The frame at position [k] moves on to its next [await]. *)
Lemma update_nth_ids k id it ph ph' (l : list task) :
  nth_error l k = Some (mkTask id it ph) ->
  map t_id (update_nth k (mkTask id it ph') l) = map t_id l.
Proof.
  intros Hk. destruct (nth_error_split _ _ Hk) as [l1 [l2 [-> Hlen]]].
  rewrite <- Hlen, update_nth_middle. now rewrite !map_app.
Qed.

Lemma slots_inv_queue running q st :
  slots_inv running st -> slots_inv running (set_queue q st).
Proof. now apply slots_inv_neutral. Qed.

Lemma slots_inv_processFrameAndEmit it st :
  slots_inv None st -> slots_inv None (processFrameAndEmit it st).
Proof.
  apply (rule_processFrameAndEmit (slots_inv None) (slots_inv None)
           (fun id => slots_inv (Some id))).
  - intros. now apply slots_inv_log, slots_inv_queue.
  - intros. now apply slots_inv_acquire.
  - intros. now apply slots_inv_call.
  - intros. now apply slots_inv_log.
  - intros. now apply slots_inv_release.
  - intros. now apply slots_inv_log, slots_inv_queue, slots_inv_release.
Qed.

Lemma slots_inv_finally_block id st :
  slots_inv (Some id) st -> slots_inv None (finally_block id st).
Proof.
  apply (rule_finally_block (slots_inv None) (slots_inv None)
           (fun id => slots_inv (Some id))).
  - intros. now apply slots_inv_log, slots_inv_queue.
  - intros. now apply slots_inv_acquire.
  - intros. now apply slots_inv_call.
  - intros. now apply slots_inv_log.
  - intros. now apply slots_inv_release.
  - intros. now apply slots_inv_log, slots_inv_queue, slots_inv_release.
Qed.

Lemma slots_inv_check_alert running count now now' st :
  slots_inv running st -> slots_inv running (check_alert count now now' st).
Proof.
  intros H. unfold check_alert. destruct (alert_due _ _ _ _); [|assumption].
  apply slots_inv_log; try reflexivity. now apply slots_inv_neutral with st.
Qed.

Lemma pending_check_alert count now now' st :
  pending (check_alert count now now' st) = pending st.
Proof. unfold check_alert. now destruct (alert_due _ _ _ _). Qed.

Lemma slots_inv_step l st :
  slots_inv None st -> slots_inv None (step l st).
Proof.
  intros H. destruct l as [sock data|data|rf now now'|k r now now'|k dots heat];
    cbn [step].
  - unfold on_frame.
    destruct (negb (truthy data) || negb (truthy (get data "imageBase64"))).
    { now apply slots_inv_log. }
    destruct (60 <? _).
    { now apply slots_inv_log. }
    now apply slots_inv_processFrameAndEmit, slots_inv_log.
  - unfold on_updateThreshold.
    destruct (truthy data && truthy (get data "threshold")); [|assumption].
    apply slots_inv_log; try reflexivity. now apply slots_inv_neutral with st.
  - now apply slots_inv_check_alert.
  - unfold on_inference_done.
    destruct (nth_error (pending st) k) as [[id it [|count preds]]|] eqn:Hk;
      try assumption.
    destruct r as [rf|message].
    + apply slots_inv_neutral with (check_alert (frame_count (first_output rf)) now now' st);
        try reflexivity; [|now apply slots_inv_check_alert].
      state_simpl. apply update_nth_ids with AwaitInference.
      now rewrite pending_check_alert.
    + apply slots_inv_finally_block, slots_inv_log; try reflexivity.
      eapply slots_inv_resume; eauto.
  - unfold on_render_done.
    destruct (nth_error (pending st) k) as [[id it [|count preds]]|] eqn:Hk;
      try assumption.
    apply slots_inv_finally_block.
    pose proof (slots_inv_resume _ _ _ _ _ Hk H) as Hr.
    destruct (drawDotsOnImage dots preds); [|now apply slots_inv_log].
    destruct (generateHeatmap heat preds); now apply slots_inv_log.
Qed.

Lemma slots_inv_init : slots_inv None init.
Proof.
  constructor; cbn; try constructor; try discriminate; reflexivity.
Qed.

(** An invariant of [step] that holds initially holds after every run. *)
Lemma run_invariant (P : state -> Prop) :
  P init -> (forall l st, P st -> P (step l st)) ->
  forall ls, P (run ls init).
Proof.
  intros H0 Hstep ls. unfold run. generalize init H0.
  induction ls as [|l ls IH]; intros st Hst; cbn; auto.
Qed.

(** ** The trace only grows *)

Lemma trace_grows_log tr0 e st :
  (exists ext, trace st = tr0 ++ ext) ->
  exists ext, trace (log e st) = tr0 ++ ext.
Proof.
  intros [ext H]. exists (ext ++ [e]). cbn. now rewrite H, app_assoc.
Qed.

Lemma trace_grows_processFrameAndEmit it st :
  exists ext, trace (processFrameAndEmit it st) = trace st ++ ext.
Proof.
  set (P := fun s : state => exists ext, trace s = trace st ++ ext).
  apply (rule_processFrameAndEmit P P (fun _ => P)); unfold P.
  - intros. now apply trace_grows_log.
  - intros. now apply trace_grows_log.
  - intros. now apply trace_grows_log.
  - intros. now apply trace_grows_log.
  - intros. now apply trace_grows_log.
  - intros. now apply trace_grows_log, trace_grows_log.
  - exists []. now rewrite app_nil_r.
Qed.

Lemma trace_grows_finally_block id st :
  exists ext, trace (finally_block id st) = trace st ++ Release id :: ext.
Proof.
  rewrite finally_block_eq. cbv zeta.
  destruct (queue st) as [|next rest]; [now exists []|].
  destruct (lt_limit _ _); [|now exists []].
  destruct (trace_grows_processFrameAndEmit next
              (log (Shift next)
                 (set_queue rest
                    (log (Release id) (set_inFlight (inFlight st - 1) st)))))
    as [ext H].
  exists (Shift next :: ext). rewrite H. cbn. now rewrite <- !app_assoc.
Qed.

Lemma released_app id tr ext :
  released id (tr ++ ext) = (released id tr + released id ext)%nat.
Proof. unfold released. now rewrite filter_app, length_app. Qed.

(** ** The counter and the limit *)

Lemma held_snoc tr e :
  held (tr ++ [e]) =
    match e with
    | Acquire _ _ => held tr + 1
    | Release _ => held tr - 1
    | _ => held tr
    end.
Proof. unfold held. rewrite fold_left_app. reflexivity. Qed.

Lemma within_limit_release n : within_limit n -> within_limit (n - 1).
Proof.
  intros [H|H]; [left; lia|]. right.
  apply ge_limit_false_mono with (n - 1); [exact H|lia].
Qed.

Lemma within_limit_acquire n :
  ge_limit n MAX_CONCURRENT = false -> within_limit (n + 1).
Proof. intros H. right. now replace (n + 1 - 1) with n by lia. Qed.

Lemma never_above_snoc tr e :
  never_above tr -> within_limit (held (tr ++ [e])) ->
  never_above (tr ++ [e]).
Proof.
  intros H He p s Hps.
  destruct s as [|a s]; [rewrite app_nil_r in Hps; now subst|].
  destruct (@exists_last _ (a :: s)) as [s' [b Hs]]; [discriminate|].
  rewrite Hs, app_assoc in Hps. apply app_inj_tail in Hps as [-> _].
  now apply (H p s').
Qed.

Lemma never_above_held tr :
  never_above tr -> within_limit (held tr).
Proof. intros H. apply (H tr []). now rewrite app_nil_r. Qed.

(** An event that is neither [inFlight++] nor [inFlight--]. *)
Lemma slots_bounded_neutral e st :
  match e with Acquire _ _ | Release _ => False | _ => True end ->
  slots_bounded st -> slots_bounded (log e st).
Proof.
  intros He [H1 H2]. pose proof (never_above_held _ H2).
  assert (held (trace st ++ [e]) = held (trace st)) as Heq
    by (rewrite held_snoc; now destruct e).
  split; cbn; [congruence|]. apply never_above_snoc; [assumption|].
  now rewrite Heq.
Qed.

Lemma slots_bounded_emit e st :
  is_emit e = true -> slots_bounded st -> slots_bounded (log e st).
Proof.
  intros He. apply slots_bounded_neutral. now destruct e.
Qed.

Lemma slots_bounded_same st st' :
  inFlight st' = inFlight st -> trace st' = trace st ->
  slots_bounded st -> slots_bounded st'.
Proof. unfold slots_bounded. intros -> ->. auto. Qed.

Lemma slots_bounded_release id st :
  slots_bounded st ->
  slots_bounded (log (Release id) (set_inFlight (inFlight st - 1) st)).
Proof.
  intros [H1 H2]. pose proof (never_above_held _ H2).
  split; cbn; rewrite ?held_snoc; [lia|].
  apply never_above_snoc; [assumption|rewrite held_snoc].
  now apply within_limit_release.
Qed.

Lemma slots_bounded_acquire it st :
  slots_bounded st -> ge_limit (inFlight st) MAX_CONCURRENT = false ->
  slots_bounded (slot_acquire it st).
Proof.
  intros [H1 H2] Hfree. split; cbn; rewrite ?held_snoc; [lia|].
  apply never_above_snoc; [assumption|rewrite held_snoc].
  rewrite H1. now apply within_limit_acquire.
Qed.

Lemma slots_bounded_rule_instance :
  (forall it st, slots_bounded st -> slots_bounded (processFrameAndEmit it st)) /\
  (forall id st, slots_bounded st -> slots_bounded (finally_block id st)).
Proof.
  split; intros x st H.
  - apply (rule_processFrameAndEmit slots_bounded slots_bounded
             (fun _ => slots_bounded)); auto.
    + intros. apply slots_bounded_neutral; [exact Logic.I|].
      now apply slots_bounded_same with st0.
    + intros. now apply slots_bounded_acquire.
    + intros. now apply slots_bounded_neutral.
    + intros. now apply slots_bounded_neutral.
    + intros. now apply slots_bounded_release.
    + intros. apply slots_bounded_neutral; [exact Logic.I|].
      eapply slots_bounded_same;
        [| |apply slots_bounded_release; eassumption]; reflexivity.
  - apply (rule_finally_block slots_bounded slots_bounded
             (fun _ => slots_bounded)); auto.
    + intros. apply slots_bounded_neutral; [exact Logic.I|].
      now apply slots_bounded_same with st0.
    + intros. now apply slots_bounded_acquire.
    + intros. now apply slots_bounded_neutral.
    + intros. now apply slots_bounded_neutral.
    + intros. now apply slots_bounded_release.
    + intros. apply slots_bounded_neutral; [exact Logic.I|].
      eapply slots_bounded_same;
        [| |apply slots_bounded_release; eassumption]; reflexivity.
Qed.

Lemma slots_bounded_check_alert count now now' st :
  slots_bounded st -> slots_bounded (check_alert count now now' st).
Proof.
  intros H. unfold check_alert. destruct (alert_due _ _ _ _); [|assumption].
  apply slots_bounded_emit; [reflexivity|]. now apply slots_bounded_same with st.
Qed.

Lemma slots_bounded_step l st :
  slots_bounded st -> slots_bounded (step l st).
Proof.
  destruct slots_bounded_rule_instance as [Hp Hf].
  intros H. destruct l as [sock data|data|rf now now'|k r now now'|k dots heat];
    cbn [step].
  - unfold on_frame.
    destruct (negb (truthy data) || negb (truthy (get data "imageBase64"))).
    { now apply slots_bounded_emit. }
    destruct (60 <? _).
    { now apply slots_bounded_emit. }
    now apply Hp, slots_bounded_emit.
  - unfold on_updateThreshold.
    destruct (truthy data && truthy (get data "threshold")); [|assumption].
    apply slots_bounded_emit; [reflexivity|].
    now apply slots_bounded_same with st.
  - now apply slots_bounded_check_alert.
  - unfold on_inference_done.
    destruct (nth_error (pending st) k) as [[id it [|count preds]]|];
      try assumption.
    destruct r as [rf|message].
    + eapply slots_bounded_same;
        [| |apply slots_bounded_check_alert; eassumption]; reflexivity.
    + apply Hf, slots_bounded_emit; [reflexivity|].
      now apply slots_bounded_same with st.
  - unfold on_render_done.
    destruct (nth_error (pending st) k) as [[id it [|count preds]]|];
      try assumption.
    apply Hf.
    assert (slots_bounded (set_pending (remove_nth k (pending st)) st))
      by now apply slots_bounded_same with st.
    destruct (drawDotsOnImage dots preds); [|now apply slots_bounded_emit].
    destruct (generateHeatmap heat preds); now apply slots_bounded_emit.
Qed.

(** ** The backlog: order and length *)

Lemma pushed_snoc tr e :
  pushed (tr ++ [e]) = pushed tr ++ match e with Push it => [it] | _ => [] end.
Proof. unfold pushed. rewrite flat_map_app. cbn. now rewrite app_nil_r. Qed.

Lemma shifted_snoc tr e :
  shifted (tr ++ [e]) = shifted tr ++ match e with Shift it => [it] | _ => [] end.
Proof. unfold shifted. rewrite flat_map_app. cbn. now rewrite app_nil_r. Qed.

Lemma fifo_log e st :
  match e with Push _ | Shift _ => False | _ => True end ->
  fifo st -> fifo (log e st).
Proof.
  unfold fifo. intros He H. cbn. rewrite pushed_snoc, shifted_snoc.
  destruct e; try contradiction; now rewrite !app_nil_r.
Qed.

Lemma fifo_same st st' :
  queue st' = queue st -> trace st' = trace st -> fifo st -> fifo st'.
Proof. unfold fifo. intros -> ->. auto. Qed.

Lemma backlog_rule_instance :
  (forall it st,
     fifo st /\
     ((List.length (queue st) <= 60)%nat \/
      (List.length (queue st) <= 61)%nat /\
      ge_limit (inFlight st) MAX_CONCURRENT = false) ->
     fifo (processFrameAndEmit it st) /\
     (List.length (queue (processFrameAndEmit it st)) <= 61)%nat) /\
  (forall id st,
     fifo st /\ (List.length (queue st) <= 61)%nat ->
     fifo (finally_block id st) /\
     (List.length (queue (finally_block id st)) <= 61)%nat).
Proof.
  set (I := fun st => fifo st /\
     ((List.length (queue st) <= 60)%nat \/
      (List.length (queue st) <= 61)%nat /\
      ge_limit (inFlight st) MAX_CONCURRENT = false)).
  set (Q := fun st => fifo st /\ (List.length (queue st) <= 61)%nat).
  assert (Hpush : forall it st,
            I st -> ge_limit (inFlight st) MAX_CONCURRENT = true ->
            Q (queue_push it st)).
  { intros it st [Hf Hl] Hfull. split.
    - unfold fifo in *. cbn. rewrite pushed_snoc, shifted_snoc, Hf.
      now rewrite app_nil_r, app_assoc.
    - cbn. rewrite length_app. cbn.
      destruct Hl as [Hl|[_ Hl]]; [lia|congruence]. }
  assert (Hacq : forall it st,
            I st -> ge_limit (inFlight st) MAX_CONCURRENT = false ->
            Q (slot_acquire it st)).
  { intros it st [Hf Hl] _. split.
    - apply fifo_log; [exact Logic.I|]. now apply fifo_same with st.
    - cbn. lia. }
  assert (Hemit : forall e st,
            match e with Push _ | Shift _ => False | _ => True end ->
            Q st -> Q (log e st)).
  { intros e st He [Hf Hl]. split; [now apply fifo_log|exact Hl]. }
  assert (Hrel : forall id st,
            Q st -> Q (log (Release id) (set_inFlight (inFlight st - 1) st))).
  { intros id st [Hf Hl]. apply Hemit; [exact Logic.I|]. split; [|exact Hl].
    now apply fifo_same with st. }
  assert (Hshift : forall id st next rest,
            Q st -> queue st = next :: rest ->
            lt_limit (inFlight st - 1) MAX_CONCURRENT = true ->
            I (log (Shift next)
                 (set_queue rest
                    (log (Release id) (set_inFlight (inFlight st - 1) st))))).
  { intros id st next rest [Hf Hl] Hq Hlt. split.
    - unfold fifo in *. cbn. rewrite !pushed_snoc, !shifted_snoc, Hf, Hq.
      now rewrite !app_nil_r, <- app_assoc.
    - left. cbn. rewrite Hq in Hl. cbn in Hl. lia. }
  split; intros x st H.
  - apply (rule_processFrameAndEmit I Q (fun _ => Q)); auto.
    + intros. now apply Hemit; [exact Logic.I|].
    + intros. now apply Hemit; [exact Logic.I|].
  - apply (rule_finally_block I Q (fun _ => Q)); auto.
    + intros. now apply Hemit; [exact Logic.I|].
    + intros. now apply Hemit; [exact Logic.I|].
Qed.

Lemma backlog_check_alert count now now' st :
  fifo st /\ (List.length (queue st) <= 61)%nat ->
  fifo (check_alert count now now' st) /\
  (List.length (queue (check_alert count now now' st)) <= 61)%nat.
Proof.
  intros [Hf Hl]. unfold check_alert.
  destruct (alert_due _ _ _ _); [|now split].
  split; [|exact Hl]. apply fifo_log; [exact Logic.I|].
  now apply fifo_same with st.
Qed.

Lemma backlog_step l st :
  fifo st /\ (List.length (queue st) <= 61)%nat ->
  fifo (step l st) /\ (List.length (queue (step l st)) <= 61)%nat.
Proof.
  destruct backlog_rule_instance as [Hp Hf].
  intros [H Hl].
  destruct l as [sock data|data|rf now now'|k r now now'|k dots heat];
    cbn [step].
  - unfold on_frame.
    destruct (negb (truthy data) || negb (truthy (get data "imageBase64"))).
    { split; [now apply fifo_log|exact Hl]. }
    destruct (60 <? _) eqn:Hfull.
    { split; [now apply fifo_log|exact Hl]. }
    apply Z.ltb_ge in Hfull. apply Hp. split; [now apply fifo_log|].
    left. cbn. lia.
  - unfold on_updateThreshold.
    destruct (truthy data && truthy (get data "threshold")); [|now split].
    split; [|exact Hl]. apply fifo_log; [exact Logic.I|].
    now apply fifo_same with st.
  - now apply backlog_check_alert.
  - unfold on_inference_done.
    destruct (nth_error (pending st) k) as [[id it [|count preds]]|];
      try now split.
    destruct r as [rf|message].
    + destruct (backlog_check_alert (frame_count (first_output rf)) now now' st)
        as [H1 H2]; [now split|].
      split; [|exact H2]. eapply fifo_same; [| |exact H1]; reflexivity.
    + apply Hf. split; [|exact Hl]. apply fifo_log; [exact Logic.I|].
      now apply fifo_same with st.
  - unfold on_render_done.
    destruct (nth_error (pending st) k) as [[id it [|count preds]]|];
      try now split.
    apply Hf.
    assert (fifo (set_pending (remove_nth k (pending st)) st))
      by now apply fifo_same with st.
    destruct (drawDotsOnImage dots preds);
      [|split; [now apply fifo_log|exact Hl]].
    destruct (generateHeatmap heat preds);
      (split; [now apply fifo_log|exact Hl]).
Qed.

(** ** Completion of a frame *)

Lemma released_le_1 id st :
  slots_inv None st -> (released id (trace st) <= 1)%nat.
Proof.
  intros H. rewrite (inv_released _ _ H).
  destruct (_ && _ && _); lia.
Qed.

Lemma released_after_finally id st :
  slots_inv (Some id) st ->
  released id (trace (finally_block id st)) = 1%nat.
Proof.
  intros H. apply slots_inv_finally_block in H.
  pose proof (released_le_1 id _ H) as Hle.
  destruct (trace_grows_finally_block id st) as [ext Hext].
  rewrite Hext in *.
  replace (trace st ++ Release id :: ext)
    with ((trace st ++ [Release id]) ++ ext) in *
    by now rewrite <- app_assoc.
  rewrite released_app, released_snoc in *. cbn in *.
  rewrite Nat.eqb_refl in *. lia.
Qed.

Lemma nth_error_update_nth k id it ph ph' (l : list task) :
  nth_error l k = Some (mkTask id it ph) ->
  nth_error (update_nth k (mkTask id it ph') l) k = Some (mkTask id it ph').
Proof.
  intros Hk. destruct (nth_error_split _ _ Hk) as [l1 [l2 [-> Hlen]]].
  rewrite <- Hlen, update_nth_middle.
  now rewrite nth_error_app2, Nat.sub_diag by lia.
Qed.

Lemma slots_inv_run ls : slots_inv None (run ls init).
Proof.
  apply run_invariant; [exact slots_inv_init|]. intros. now apply slots_inv_step.
Qed.

(** C1.  Every frame admitted by [inFlight++] gives its slot back exactly
    once.  After any run, a frame tagged [id] has taken a slot once if it was
    admitted and never otherwise; it has released it not at all while it is
    suspended at an [await] and exactly once afterwards, so that the counter
    is the number of suspended frames.  A suspended frame releases its slot
    whatever the outcome: when the inference call throws, when it returns
    (the frame then waits for the renderers) and the renderers return or
    throw, and also when [Buffer.from] throws before the call is made. *)
Theorem slot_released_exactly_once (ls : list label) :
  let st := run ls init in
  inFlight st = Z.of_nat (List.length (pending st)) /\
  (forall id, acquired id (trace st) =
     if (id <? next_id st)%nat then 1%nat else 0%nat) /\
  (forall id, released id (trace st) =
     if (id <? next_id st)%nat && negb (is_pending id st)
     then 1%nat else 0%nat) /\
  (forall k id it,
     nth_error (pending st) k = Some (mkTask id it AwaitInference) ->
     (forall message now now',
        released id
          (trace (step (inference_done k (Throw message) now now') st)) = 1%nat) /\
     (forall rf now now',
        nth_error (pending (step (inference_done k (Ok rf) now now') st)) k =
          Some (mkTask id it
                  (AwaitRender (frame_count (first_output rf))
                               (predictions_of (first_output rf)))))) /\
  (forall k id it count preds,
     nth_error (pending st) k = Some (mkTask id it (AwaitRender count preds)) ->
     forall dots heat,
       released id (trace (step (render_done k dots heat) st)) = 1%nat) /\
  (forall sock data message,
     truthy data = true -> truthy (get data "imageBase64") = true ->
     (List.length (queue st) <= 60)%nat ->
     ge_limit (inFlight st) MAX_CONCURRENT = false ->
     Buffer_from (get data "imageBase64") = Some message ->
     let st' := step (frame sock data) st in
     acquired (next_id st) (trace st') = 1%nat /\
     released (next_id st) (trace st') = 1%nat).
Proof.
  intros st. pose proof (slots_inv_run ls) as Hinv. fold st in Hinv.
  split; [|split; [|split; [|split; [|split]]]].
  - rewrite (inv_count _ _ Hinv). lia.
  - exact (inv_acquired _ _ Hinv).
  - intros id. rewrite (inv_released _ _ Hinv). cbn. now rewrite andb_true_r.
  - intros k id it Hk. split.
    + intros message now now'. cbn [step]. unfold on_inference_done.
      rewrite Hk. apply released_after_finally.
      apply slots_inv_log; try reflexivity.
      eapply slots_inv_resume; eauto.
    + intros rf now now'. cbn [step]. unfold on_inference_done.
      rewrite Hk. state_simpl. rewrite pending_check_alert.
      eapply nth_error_update_nth; eauto.
  - intros k id it count preds Hk dots heat. cbn [step].
    unfold on_render_done. rewrite Hk. apply released_after_finally.
    pose proof (slots_inv_resume _ _ _ _ _ Hk Hinv) as Hr.
    destruct (drawDotsOnImage dots preds); [|now apply slots_inv_log].
    destruct (generateHeatmap heat preds); now apply slots_inv_log.
  - intros sock data message Hd Hi Hlen Hfree Hthrow st'.
    assert (Hst' : st' =
              finally_block (next_id st)
                (catch_emit message
                   (slot_acquire (mkItem sock (get data "imageBase64"))
                      (log (socket_emit sock ack) st)))).
    { unfold st'. cbn [step]. unfold on_frame. rewrite Hd, Hi. cbn [negb orb].
      assert ((60 <? Z.of_nat (List.length (queue st))) = false) as ->
        by (apply Z.ltb_ge; lia).
      rewrite processFrameAndEmit_eq. cbn [inFlight log frameBase64].
      now rewrite Hfree, Hthrow. }
    assert (Hrun : slots_inv (Some (next_id st))
                     (catch_emit message
                        (slot_acquire (mkItem sock (get data "imageBase64"))
                           (log (socket_emit sock ack) st)))).
    { apply slots_inv_log; try reflexivity.
      apply (slots_inv_acquire _ (log (socket_emit sock ack) st)).
      now apply slots_inv_log. }
    rewrite Hst'. split; [|now apply released_after_finally].
    destruct (trace_grows_finally_block (next_id st)
                (catch_emit message
                   (slot_acquire (mkItem sock (get data "imageBase64"))
                      (log (socket_emit sock ack) st))))
      as [ext Hext].
    pose proof (inv_acquired _ _ (slots_inv_finally_block _ _ Hrun)
                  (next_id st)) as Ha.
    assert (Hge : (1 <= acquired (next_id st)
                          (trace (finally_block (next_id st)
                             (catch_emit message
                                (slot_acquire
                                   (mkItem sock (get data "imageBase64"))
                                   (log (socket_emit sock ack) st))))))%nat).
    { rewrite Hext. cbn [trace catch_emit slot_acquire log set_next_id
                         set_inFlight next_id].
      unfold acquired. rewrite !filter_app, !length_app. cbn.
      rewrite Nat.eqb_refl. cbn. lia. }
    rewrite Ha in *. destruct (_ <? _)%nat; [reflexivity|lia].
Qed.

Lemma slots_bounded_init : slots_bounded init.
Proof.
  split; [reflexivity|].
  intros p s Hps. destruct p; [left; reflexivity|discriminate].
Qed.

Lemma slots_bounded_run ls : slots_bounded (run ls init).
Proof.
  apply run_invariant; [exact slots_bounded_init|].
  intros. now apply slots_bounded_step.
Qed.

Lemma within_limit_integer k n :
  MAX_CONCURRENT = Finite (inject_Z k) -> 0 <= k -> within_limit n -> n <= k.
Proof.
  unfold within_limit. intros -> Hk [H|H]; [lia|].
  rewrite ge_limit_integer in H. apply Z.leb_gt in H. lia.
Qed.

(** C2, as the code has it.  The counter stays within the limit in the sense
    of the guard: after any run, and in between (in every prefix of the
    trace), no slot is held or [inFlight - 1 >= MAX_CONCURRENT] is false.
    Hence [inFlight] never exceeds a limit that is an integer and not
    negative, and stays below [MAX_CONCURRENT + 1] for any finite limit
    that is not negative.  A frame handed to [processFrameAndEmit] while
    [inFlight >= MAX_CONCURRENT] is pushed on the backlog and nothing else
    happens; otherwise the counter is incremented first and the inference
    call is started after that. *)
Theorem inFlight_exceeds_MAX_CONCURRENT_by_less_than_1 (ls : list label) :
  let st := run ls init in
  0 <= inFlight st /\
  (inFlight st = 0 \/ ge_limit (inFlight st - 1) MAX_CONCURRENT = false) /\
  held (trace st) = inFlight st /\
  (forall p s, trace st = p ++ s ->
     held p <= 0 \/ ge_limit (held p - 1) MAX_CONCURRENT = false) /\
  (forall k, MAX_CONCURRENT = Finite (inject_Z k) -> 0 <= k ->
     inFlight st <= k /\
     gt_limit (inFlight st) MAX_CONCURRENT = false /\
     forall p s, trace st = p ++ s -> held p <= k) /\
  (forall q, MAX_CONCURRENT = Finite q -> (0 <= q)%Q ->
     (inject_Z (inFlight st) < q + 1)%Q) /\
  (forall it s,
     ge_limit (inFlight s) MAX_CONCURRENT = true ->
     processFrameAndEmit it s =
       log (Push it) (set_queue (queue s ++ [it]) s)) /\
  (forall it s,
     ge_limit (inFlight s) MAX_CONCURRENT = false ->
     Buffer_from (frameBase64 it) = None ->
     let s' := processFrameAndEmit it s in
     inFlight s' = inFlight s + 1 /\
     queue s' = queue s /\
     trace s' =
       trace s ++ [Acquire (next_id s) it; Call (next_id s) it]).
Proof.
  intros st.
  destruct (slots_bounded_run ls) as [Hheld Hnever]. fold st in Hheld, Hnever.
  pose proof (never_above_held _ Hnever) as Hle. rewrite Hheld in Hle.
  pose proof (inv_count _ _ (slots_inv_run ls)) as Hcount. fold st in Hcount.
  split; [lia|]. split; [destruct Hle; [left; lia|now right]|].
  split; [exact Hheld|]. split; [exact Hnever|].
  split; [|split; [|split]].
  - intros k Hmax Hk.
    assert (Hbound : inFlight st <= k) by now apply within_limit_integer.
    split; [exact Hbound|]. split.
    + rewrite Hmax, gt_limit_integer. apply Z.ltb_ge. exact Hbound.
    + intros p s Hps. apply within_limit_integer; auto. now apply (Hnever p s).
  - intros q Hmax Hq. destruct Hle as [Hle|Hle].
    + assert (inFlight st = 0) as -> by lia.
      change (inject_Z 0) with 0%Q. lra.
    + rewrite Hmax in Hle. now apply ge_limit_false_below.
  - intros it s Hfull. rewrite processFrameAndEmit_eq. now rewrite Hfull.
  - intros it s Hfree Hbuf s'. unfold s'. rewrite processFrameAndEmit_eq.
    rewrite Hfree, Hbuf. cbn.
    repeat split. now rewrite <- app_assoc.
Qed.

(** ** Backlog entries reach the inference call in order

    The proof rule once more, keeping track of the entry being processed:
    [I it] holds when [processFrameAndEmit] is entered with the entry [it],
    [J id it] after its [inFlight++], [K id] in the [catch] and [finally]
    blocks of frame [id], [Q] when control returns to the event loop. *)
Section RuleItem.

Variables (I : item -> state -> Prop) (Q : state -> Prop).
Variables (J : nat -> item -> state -> Prop) (K : nat -> state -> Prop).

Hypothesis ri_push : forall it st,
  I it st -> ge_limit (inFlight st) MAX_CONCURRENT = true ->
  Q (queue_push it st).
Hypothesis ri_acquire : forall it st,
  I it st -> ge_limit (inFlight st) MAX_CONCURRENT = false ->
  J (next_id st) it (slot_acquire it st).
Hypothesis ri_call : forall id it st,
  J id it st -> Buffer_from (frameBase64 it) = None ->
  Q (call_inference id it st).
Hypothesis ri_catch : forall id it message st,
  J id it st -> Buffer_from (frameBase64 it) = Some message ->
  K id (catch_emit message st).
Hypothesis ri_release : forall id st,
  K id st ->
  queue st = [] \/ lt_limit (inFlight st - 1) MAX_CONCURRENT = false ->
  Q (log (Release id) (set_inFlight (inFlight st - 1) st)).
Hypothesis ri_shift : forall id st next rest,
  K id st -> queue st = next :: rest ->
  lt_limit (inFlight st - 1) MAX_CONCURRENT = true ->
  I next
    (log (Shift next)
       (set_queue rest (log (Release id) (set_inFlight (inFlight st - 1) st)))).




End RuleItem.







Lemma backlog_run ls :
  fifo (run ls init) /\ (List.length (queue (run ls init)) <= 61)%nat.
Proof.
  apply (run_invariant
           (fun st => fifo st /\ (List.length (queue st) <= 61)%nat)).
  - split; [reflexivity|cbn; lia].
  - intros. now apply backlog_step.
Qed.

(** C3, as the code has it.  The backlog never holds more than 61 entries.
    A [frame] submission that carries an image and arrives while more than
    60 entries are backlogged is rejected: the submitter alone is sent
    [prediction] with [success: false] and the error
    ["Server busy, frame dropped"], no [ack] is sent and nothing but the
    trace changes.  With exactly 60 entries backlogged the submission is
    still acknowledged and, when all slots are taken, becomes entry 61. *)
Theorem backlog_never_exceeds_61 (ls : list label) :
  let st := run ls init in
  (List.length (queue st) <= 61)%nat /\
  (forall sock data,
     truthy data = true -> truthy (get data "imageBase64") = true ->
     (60 < List.length (queue st))%nat ->
     step (frame sock data) st =
       log (socket_emit sock (prediction_fail "Server busy, frame dropped")) st) /\
  (forall sock data,
     truthy data = true -> truthy (get data "imageBase64") = true ->
     List.length (queue st) = 60%nat ->
     ge_limit (inFlight st) MAX_CONCURRENT = true ->
     let st' := step (frame sock data) st in
     List.length (queue st') = 61%nat /\
     trace st' =
       trace st ++ [socket_emit sock ack;
                    Push (mkItem sock (get data "imageBase64"))]).
Proof.
  intros st. split; [apply backlog_run|]. split.
  - intros sock data Hd Hi Hlen. cbn [step]. unfold on_frame.
    rewrite Hd, Hi. cbn [negb orb].
    assert ((60 <? Z.of_nat (List.length (queue st))) = true) as ->
      by (apply Z.ltb_lt; lia).
    reflexivity.
  - intros sock data Hd Hi Hlen Hfull st'. unfold st'. cbn [step].
    unfold on_frame. rewrite Hd, Hi. cbn [negb orb].
    assert ((60 <? Z.of_nat (List.length (queue st))) = false) as ->
      by (apply Z.ltb_ge; lia).
    rewrite processFrameAndEmit_eq. cbn [inFlight log].
    rewrite Hfull. cbn.
    rewrite length_app, Hlen. split; [reflexivity|].
    now rewrite <- app_assoc.
Qed.


(** C9.  A [frame] submission whose payload is missing or falsy, or whose
    [imageBase64] field is missing or falsy, is answered before admission
    control: the submitter alone is sent [prediction] with [success: false]
    and the error ["No frame provided"]; no [ack] is sent, and the backlog,
    the slot counter and the suspended frames stay as they were. *)
Theorem frame_without_image_is_rejected (sock : nat) (data : jsval) (st : state) :
  truthy data = false \/ truthy (get data "imageBase64") = false ->
  let st' := step (frame sock data) st in
  st' = log (socket_emit sock (prediction_fail "No frame provided")) st /\
  trace st' =
    trace st ++ [socket_emit sock (prediction_fail "No frame provided")] /\
  queue st' = queue st /\
  inFlight st' = inFlight st /\
  pending st' = pending st.
Proof.
  intros H st'. unfold st'. cbn [step]. unfold on_frame.
  assert ((negb (truthy data) || negb (truthy (get data "imageBase64"))) = true)
    as ->.
  { destruct H as [-> | ->]; [reflexivity|]. now rewrite orb_true_r. }
  repeat split.
Qed.

(* ===================================================================== *)
(** * Further properties of the dispatcher *)
(* ===================================================================== *)

(** ** The proof rule, telling the [try] block from the [finally] block

    [J1 id] holds after [inFlight++], [J2 id] after the [catch] block. *)
Section Rule2.

Variables (I Q : state -> Prop) (J1 J2 : nat -> state -> Prop).

Hypothesis rule2_push : forall it st,
  I st -> ge_limit (inFlight st) MAX_CONCURRENT = true ->
  Q (queue_push it st).
Hypothesis rule2_acquire : forall it st,
  I st -> ge_limit (inFlight st) MAX_CONCURRENT = false ->
  J1 (next_id st) (slot_acquire it st).
Hypothesis rule2_call : forall id it st,
  J1 id st -> Q (call_inference id it st).
Hypothesis rule2_catch : forall id message st,
  J1 id st -> J2 id (catch_emit message st).
Hypothesis rule2_release : forall id st,
  J2 id st ->
  queue st = [] \/ lt_limit (inFlight st - 1) MAX_CONCURRENT = false ->
  Q (log (Release id) (set_inFlight (inFlight st - 1) st)).
Hypothesis rule2_shift : forall id st next rest,
  J2 id st -> queue st = next :: rest ->
  lt_limit (inFlight st - 1) MAX_CONCURRENT = true ->
  I (log (Shift next)
       (set_queue rest (log (Release id) (set_inFlight (inFlight st - 1) st)))).

Lemma rule2_bounded n :
  (forall it st, (List.length (queue st) < n)%nat ->
     I st -> Q (processFrameAndEmit it st)) /\
  (forall id st, (List.length (queue st) < n)%nat ->
     J2 id st -> Q (finally_block id st)).
Proof.
  induction n as [|n [IHp _]].
  - split; intros; lia.
  - assert (Hfin : forall id st, (List.length (queue st) < S n)%nat ->
                     J2 id st -> Q (finally_block id st)).
    { intros id st Hlen HJ. rewrite finally_block_eq. cbv zeta.
      destruct (queue st) as [|next rest] eqn:Hq.
      - apply rule2_release; auto.
      - destruct (lt_limit (inFlight st - 1) MAX_CONCURRENT) eqn:Hlt.
        + apply IHp.
          * cbn. cbn in Hlen. lia.
          * eapply rule2_shift; eauto.
        + apply rule2_release; auto. }
    split; [|exact Hfin].
    intros it st Hlen HI. rewrite processFrameAndEmit_eq.
    destruct (ge_limit (inFlight st) MAX_CONCURRENT) eqn:Hfull.
    + now apply rule2_push.
    + destruct (Buffer_from (frameBase64 it)) as [message|].
      * apply Hfin; [exact Hlen|]. apply rule2_catch. now apply rule2_acquire.
      * apply rule2_call. now apply rule2_acquire.
Qed.

Lemma rule2_processFrameAndEmit it st :
  I st -> Q (processFrameAndEmit it st).
Proof. apply (rule2_bounded (S (List.length (queue st)))). lia. Qed.

Lemma rule2_finally_block id st :
  J2 id st -> Q (finally_block id st).
Proof. apply (rule2_bounded (S (List.length (queue st)))). lia. Qed.

End Rule2.

Lemma count_events_snoc f tr e :
  count_events f (tr ++ [e]) =
    (count_events f tr + if f e then 1 else 0)%nat.
Proof.
  unfold count_events. rewrite filter_app, length_app. cbn.
  now destruct (f e).
Qed.

Lemma count_events_app f tr ext :
  count_events f (tr ++ ext) = (count_events f tr + count_events f ext)%nat.
Proof. unfold count_events. now rewrite filter_app, length_app. Qed.

Lemma run_snoc ls l st : run (ls ++ [l]) st = step l (run ls st).
Proof. unfold run. now rewrite fold_left_app. Qed.

(** The dispatcher proper touches neither the alert state nor the events a
    reading [f] counts, if [f] ignores the events it logs. *)
Lemma dispatch_frame f :
  (forall id it, f (Acquire id it) = false) ->
  (forall id, f (Release id) = false) ->
  (forall it, f (Push it) = false) ->
  (forall it, f (Shift it) = false) ->
  (forall id it, f (Call id it) = false) ->
  (forall error, f (io_emit (prediction_fail error)) = false) ->
  (forall it st,
     count_events f (trace (processFrameAndEmit it st)) =
       count_events f (trace st)) /\
  (forall id st,
     count_events f (trace (finally_block id st)) =
       count_events f (trace st)).
Proof.
  intros Ha Hr Hp Hs Hc He.
  assert (Hlog : forall n e st, f e = false ->
            count_events f (trace st) = n ->
            count_events f (trace (log e st)) = n).
  { intros n e st Hf <-. cbn. now rewrite count_events_snoc, Hf, Nat.add_0_r. }
  split.
  - intros it st.
    apply (rule_processFrameAndEmit
             (fun s => count_events f (trace s) = count_events f (trace st))
             (fun s => count_events f (trace s) = count_events f (trace st))
             (fun _ s => count_events f (trace s) = count_events f (trace st)));
      intros; try (apply Hlog; auto); auto.
    apply Hlog; auto.
  - intros id st.
    apply (rule_finally_block
             (fun s => count_events f (trace s) = count_events f (trace st))
             (fun s => count_events f (trace s) = count_events f (trace st))
             (fun _ s => count_events f (trace s) = count_events f (trace st)));
      intros; try (apply Hlog; auto); auto.
    apply Hlog; auto.
Qed.

Lemma dispatch_alert_state :
  (forall it st,
     ALERT_THRESHOLD (processFrameAndEmit it st) = ALERT_THRESHOLD st /\
     lastAlertTime (processFrameAndEmit it st) = lastAlertTime st) /\
  (forall id st,
     ALERT_THRESHOLD (finally_block id st) = ALERT_THRESHOLD st /\
     lastAlertTime (finally_block id st) = lastAlertTime st).
Proof.
  split.
  - intros it st.
    apply (rule_processFrameAndEmit
             (fun s => ALERT_THRESHOLD s = ALERT_THRESHOLD st /\
                       lastAlertTime s = lastAlertTime st)
             (fun s => ALERT_THRESHOLD s = ALERT_THRESHOLD st /\
                       lastAlertTime s = lastAlertTime st)
             (fun _ s => ALERT_THRESHOLD s = ALERT_THRESHOLD st /\
                         lastAlertTime s = lastAlertTime st));
      intros; cbn; auto.
  - intros id st.
    apply (rule_finally_block
             (fun s => ALERT_THRESHOLD s = ALERT_THRESHOLD st /\
                       lastAlertTime s = lastAlertTime st)
             (fun s => ALERT_THRESHOLD s = ALERT_THRESHOLD st /\
                       lastAlertTime s = lastAlertTime st)
             (fun _ s => ALERT_THRESHOLD s = ALERT_THRESHOLD st /\
                         lastAlertTime s = lastAlertTime st));
      intros; cbn; auto.
Qed.

(** ** Replies to the submitting socket *)

Lemma count_check_alert f count now now' st :
  (forall m, f (io_emit m) = false) ->
  count_events f (trace (check_alert count now now' st)) =
    count_events f (trace st).
Proof.
  intros Hf. unfold check_alert. destruct (alert_due _ _ _ _); [|reflexivity].
  cbn. now rewrite count_events_snoc, Hf, Nat.add_0_r.
Qed.

(** A reading that ignores broadcasts and the dispatcher's own events sees
    nothing of a step other than a [frame] submission. *)
Lemma count_step_other f l st :
  (forall id it, f (Acquire id it) = false) ->
  (forall id, f (Release id) = false) ->
  (forall it, f (Push it) = false) ->
  (forall it, f (Shift it) = false) ->
  (forall id it, f (Call id it) = false) ->
  (forall m, f (io_emit m) = false) ->
  is_frame_label l = false ->
  count_events f (trace (step l st)) = count_events f (trace st).
Proof.
  intros Ha Hr Hp Hs Hc He Hl.
  destruct (dispatch_frame f Ha Hr Hp Hs Hc (fun e => He _)) as [_ Hfin].
  assert (Hlog : forall m s,
            count_events f (trace (log (io_emit m) s)) =
              count_events f (trace s)).
  { intros m s. cbn. now rewrite count_events_snoc, He, Nat.add_0_r. }
  destruct l as [sock data|data|rf now now'|k r now now'|k dots heat];
    [discriminate Hl| | | |]; cbn [step].
  - unfold on_updateThreshold.
    destruct (truthy data && truthy (get data "threshold")); [|reflexivity].
    now rewrite Hlog.
  - now apply count_check_alert.
  - unfold on_inference_done.
    destruct (nth_error (pending st) k) as [[id it [|count preds]]|];
      try reflexivity.
    destruct r as [rf|message].
    + cbn [trace set_pending]. now apply count_check_alert.
    + unfold catch_emit. now rewrite Hfin, Hlog.
  - unfold on_render_done.
    destruct (nth_error (pending st) k) as [[id it [|count preds]]|];
      try reflexivity.
    rewrite Hfin. unfold catch_emit.
    destruct (drawDotsOnImage dots preds); [|now rewrite Hlog].
    destruct (generateHeatmap heat preds); now rewrite Hlog.
Qed.

Lemma replies_dispatch :
  (forall it st,
     Forall is_frame_reply (trace st) ->
     Forall is_frame_reply (trace (processFrameAndEmit it st))) /\
  (forall id st,
     Forall is_frame_reply (trace st) ->
     Forall is_frame_reply (trace (finally_block id st))).
Proof.
  assert (Hlog : forall e st, is_frame_reply e ->
            Forall is_frame_reply (trace st) ->
            Forall is_frame_reply (trace (log e st))).
  { intros e st He H. cbn. apply Forall_app. split; [exact H|].
    now constructor. }
  split.
  - intros it st.
    apply (rule_processFrameAndEmit
             (fun s => Forall is_frame_reply (trace s))
             (fun s => Forall is_frame_reply (trace s))
             (fun _ s => Forall is_frame_reply (trace s)));
      intros; repeat (apply Hlog; [exact Logic.I|]); auto.
  - intros id st.
    apply (rule_finally_block
             (fun s => Forall is_frame_reply (trace s))
             (fun s => Forall is_frame_reply (trace s))
             (fun _ s => Forall is_frame_reply (trace s)));
      intros; repeat (apply Hlog; [exact Logic.I|]); auto.
Qed.

Lemma replies_step l st :
  Forall is_frame_reply (trace st) ->
  Forall is_frame_reply (trace (step l st)).
Proof.
  destruct replies_dispatch as [Hp Hf].
  assert (Hlog : forall e s, is_frame_reply e ->
            Forall is_frame_reply (trace s) ->
            Forall is_frame_reply (trace (log e s))).
  { intros e s He H. cbn. apply Forall_app. split; [exact H|].
    now constructor. }
  intros H.
  destruct l as [sock data|data|rf now now'|k r now now'|k dots heat];
    cbn [step].
  - unfold on_frame.
    destruct (negb (truthy data) || negb (truthy (get data "imageBase64"))).
    { apply Hlog; [cbn; tauto|exact H]. }
    destruct (60 <? _).
    { apply Hlog; [cbn; tauto|exact H]. }
    apply Hp, Hlog; [cbn; tauto|exact H].
  - unfold on_updateThreshold.
    destruct (truthy data && truthy (get data "threshold")); [|exact H].
    now apply Hlog.
  - unfold on_predict, check_alert. destruct (alert_due _ _ _ _); [|exact H].
    now apply Hlog.
  - unfold on_inference_done.
    destruct (nth_error (pending st) k) as [[id it [|count preds]]|];
      try exact H.
    destruct r as [rf|message].
    + cbn [trace set_pending]. unfold check_alert.
      destruct (alert_due _ _ _ _); [|exact H]. now apply Hlog.
    + apply Hf. now apply Hlog.
  - unfold on_render_done.
    destruct (nth_error (pending st) k) as [[id it [|count preds]]|];
      try exact H.
    apply Hf. unfold catch_emit.
    destruct (drawDotsOnImage dots preds); [|now apply Hlog].
    destruct (generateHeatmap heat preds); now apply Hlog.
Qed.

(** The dispatcher sends nothing to a single socket. *)
Lemma targeted_dispatch :
  (forall it st, exists ext,
     trace (processFrameAndEmit it st) = trace st ++ ext /\
     Forall (fun e => is_socket_emit e = false) ext) /\
  (forall id st, exists ext,
     trace (finally_block id st) = trace st ++ ext /\
     Forall (fun e => is_socket_emit e = false) ext).
Proof.
  assert (Hlog : forall tr0 e st, is_socket_emit e = false ->
            (exists ext, trace st = tr0 ++ ext /\
                         Forall (fun e => is_socket_emit e = false) ext) ->
            exists ext, trace (log e st) = tr0 ++ ext /\
                        Forall (fun e => is_socket_emit e = false) ext).
  { intros tr0 e st He [ext [H1 H2]]. exists (ext ++ [e]). cbn. split.
    - now rewrite H1, app_assoc.
    - apply Forall_app. split; [exact H2|]. now constructor. }
  assert (Hinit : forall st : state, exists ext,
            trace st = trace st ++ ext /\
            Forall (fun e => is_socket_emit e = false) ext).
  { intros st. exists []. split; [now rewrite app_nil_r|constructor]. }
  split.
  - intros it st.
    set (P := fun s : state => exists ext,
                trace s = trace st ++ ext /\
                Forall (fun e => is_socket_emit e = false) ext).
    apply (rule_processFrameAndEmit P P (fun _ => P)); unfold P; auto;
      intros; repeat (apply Hlog; [reflexivity|]); auto.
  - intros id st.
    set (P := fun s : state => exists ext,
                trace s = trace st ++ ext /\
                Forall (fun e => is_socket_emit e = false) ext).
    apply (rule_finally_block P P (fun _ => P)); unfold P; auto;
      intros; repeat (apply Hlog; [reflexivity|]); auto.
Qed.

(** A step other than a [frame] submission sends nothing to a single
    socket. *)
Lemma targeted_step_other l st :
  is_frame_label l = false ->
  exists ext,
    trace (step l st) = trace st ++ ext /\
    Forall (fun e => is_socket_emit e = false) ext.
Proof.
  destruct targeted_dispatch as [_ Hf].
  assert (Hnone : exists ext,
            trace st = trace st ++ ext /\
            Forall (fun e => is_socket_emit e = false) ext).
  { exists []. split; [now rewrite app_nil_r|constructor]. }
  assert (Hone : forall m, exists ext,
            trace st ++ [io_emit m] = trace st ++ ext /\
            Forall (fun e => is_socket_emit e = false) ext).
  { intros m. exists [io_emit m]. split; [reflexivity|now repeat constructor]. }
  assert (Hfin : forall id m (s : state),
            trace s = trace st ->
            exists ext,
              trace (finally_block id (log (io_emit m) s)) = trace st ++ ext /\
              Forall (fun e => is_socket_emit e = false) ext).
  { intros id m s Hs.
    destruct (Hf id (log (io_emit m) s)) as [ext [H1 H2]].
    exists (io_emit m :: ext). rewrite H1. cbn. rewrite Hs, <- app_assoc.
    split; [reflexivity|now constructor]. }
  intros Hl.
  destruct l as [sock data|data|rf now now'|k r now now'|k dots heat];
    [discriminate Hl| | | |]; cbn [step].
  - unfold on_updateThreshold.
    destruct (truthy data && truthy (get data "threshold"));
      [apply Hone|exact Hnone].
  - unfold on_predict, check_alert.
    destruct (alert_due _ _ _ _); [apply Hone|exact Hnone].
  - unfold on_inference_done.
    destruct (nth_error (pending st) k) as [[id it [|count preds]]|];
      try exact Hnone.
    destruct r as [rf|message].
    + cbn [trace set_pending]. unfold check_alert.
      destruct (alert_due _ _ _ _); [apply Hone|exact Hnone].
    + unfold catch_emit. now apply Hfin.
  - unfold on_render_done.
    destruct (nth_error (pending st) k) as [[id it [|count preds]]|];
      try exact Hnone.
    unfold catch_emit.
    destruct (drawDotsOnImage dots preds); [|now apply Hfin].
    destruct (generateHeatmap heat preds); now apply Hfin.
Qed.

(** A [frame] submission is answered first of all, on its own socket, and
    nothing else is sent to a single socket in that step. *)
Lemma targeted_step_frame sock data st :
  exists m ext,
    trace (step (frame sock data) st) = trace st ++ socket_emit sock m :: ext /\
    is_reply m /\
    Forall (fun e => is_socket_emit e = false) ext.
Proof.
  destruct targeted_dispatch as [Hp _]. cbn [step]. unfold on_frame, is_reply.
  destruct (negb (truthy data) || negb (truthy (get data "imageBase64"))).
  { eexists _, []. cbn. split; [reflexivity|]. split; [tauto|constructor]. }
  destruct (60 <? _).
  { eexists _, []. cbn. split; [reflexivity|]. split; [tauto|constructor]. }
  destruct (Hp (mkItem sock (get data "imageBase64"))
               (log (socket_emit sock ack) st)) as [ext [H1 H2]].
  exists ack, ext. rewrite H1. cbn. rewrite <- app_assoc.
  split; [reflexivity|]. split; [tauto|exact H2].
Qed.

Lemma replied_app tr ext : replied (tr ++ ext) = replied tr ++ replied ext.
Proof. unfold replied. apply flat_map_app. Qed.

Lemma replied_none ext :
  Forall (fun e => is_socket_emit e = false) ext -> replied ext = [].
Proof.
  induction 1 as [|e ext He _ IH]; [reflexivity|].
  unfold replied in *. cbn. rewrite IH. now destruct e.
Qed.

Lemma count_to_none sock ext :
  Forall (fun e => is_socket_emit e = false) ext ->
  count_events (is_socket_emit_to sock) ext = 0%nat.
Proof.
  induction 1 as [|e ext He _ IH]; [reflexivity|].
  unfold count_events in *. cbn. now destruct e.
Qed.

Lemma submitters_app ls ls' :
  submitters (ls ++ ls') = submitters ls ++ submitters ls'.
Proof. unfold submitters. apply flat_map_app. Qed.

(** X11.  Every [frame] submission is answered once and at once on the
    socket it was made on, with [ack] or with one of the two rejections, and
    the live pipeline sends nothing else to a single socket.  After any run
    the sockets that were sent an event of their own are, in order, the
    sockets of the submissions, so that each socket has received as many
    such events as it made submissions, and each of them is one of the three
    answers; the results of processing, alerts and threshold updates are
    broadcast.  The answer is the first thing a submission causes. *)
Theorem every_submission_answered_once (ls : list label) :
  let st := run ls init in
  replied (trace st) = submitters ls /\
  (forall sock,
     count_events (is_socket_emit_to sock) (trace st) =
       List.length (filter (is_frame_from sock) ls)) /\
  Forall is_frame_reply (trace st) /\
  (forall sock data, exists m ext,
     trace (step (frame sock data) st) =
       trace st ++ socket_emit sock m :: ext /\
     is_reply m /\
     replied ext = []).
Proof.
  cbv zeta. split; [|split; [|split]].
  - induction ls as [|l ls IH] using rev_ind; [reflexivity|].
    rewrite run_snoc, submitters_app.
    destruct (is_frame_label l) eqn:Hl.
    + destruct l as [sock data| | | |]; try discriminate Hl.
      destruct (targeted_step_frame sock data (run ls init))
        as [m [ext [H1 [_ H2]]]].
      rewrite H1, replied_app, IH. f_equal.
      change (socket_emit sock m :: ext) with ([socket_emit sock m] ++ ext).
      rewrite replied_app, (replied_none _ H2). reflexivity.
    + destruct (targeted_step_other l (run ls init) Hl) as [ext [H1 H2]].
      rewrite H1, replied_app, IH, (replied_none _ H2).
      destruct l; try discriminate Hl; reflexivity.
  - intros sock0. induction ls as [|l ls IH] using rev_ind; [reflexivity|].
    rewrite run_snoc, filter_app, length_app, <- IH.
    destruct (is_frame_label l) eqn:Hl.
    + destruct l as [sock data| | | |]; try discriminate Hl.
      destruct (targeted_step_frame sock data (run ls init))
        as [m [ext [H1 [_ H2]]]].
      rewrite H1.
      change (socket_emit sock m :: ext) with ([socket_emit sock m] ++ ext).
      rewrite app_assoc, count_events_app, count_events_snoc.
      rewrite (count_to_none _ _ H2). cbn.
      destruct (Nat.eqb sock sock0); cbn; lia.
    + destruct (targeted_step_other l (run ls init) Hl) as [ext [H1 H2]].
      rewrite H1, count_events_app, (count_to_none _ _ H2).
      destruct l; try discriminate Hl; cbn; lia.
  - induction ls as [|l ls IH] using rev_ind; [constructor|].
    rewrite run_snoc. now apply replies_step.
  - intros sock data.
    destruct (targeted_step_frame sock data (run ls init))
      as [m [ext [H1 [H2 H3]]]].
    exists m, ext. split; [exact H1|]. split; [exact H2|].
    now apply replied_none.
Qed.

(** ** One broadcast per finished frame; no accepted frame is lost *)

Ltac count_simpl :=
  intros; state_simpl; rewrite ?count_events_snoc, ?length_app in *;
  cbn [is_prediction is_any_release is_ack is_alert is_socket_emit
       List.length] in *;
  try lia.

Lemma predictions_dispatch :
  (forall it st,
     count_events is_prediction (trace st) =
       count_events is_any_release (trace st) ->
     count_events is_prediction (trace (processFrameAndEmit it st)) =
       count_events is_any_release (trace (processFrameAndEmit it st))) /\
  (forall id st,
     count_events is_prediction (trace st) =
       (count_events is_any_release (trace st) + 1)%nat ->
     count_events is_prediction (trace (finally_block id st)) =
       count_events is_any_release (trace (finally_block id st))).
Proof.
  split.
  - intros it st.
    apply (rule2_processFrameAndEmit
             (fun s => count_events is_prediction (trace s) =
                       count_events is_any_release (trace s))
             (fun s => count_events is_prediction (trace s) =
                       count_events is_any_release (trace s))
             (fun _ s => count_events is_prediction (trace s) =
                         count_events is_any_release (trace s))
             (fun _ s => count_events is_prediction (trace s) =
                         (count_events is_any_release (trace s) + 1)%nat));
      unfold queue_push, slot_acquire, call_inference, catch_emit; count_simpl.
  - intros id st.
    apply (rule2_finally_block
             (fun s => count_events is_prediction (trace s) =
                       count_events is_any_release (trace s))
             (fun s => count_events is_prediction (trace s) =
                       count_events is_any_release (trace s))
             (fun _ s => count_events is_prediction (trace s) =
                         count_events is_any_release (trace s))
             (fun _ s => count_events is_prediction (trace s) =
                         (count_events is_any_release (trace s) + 1)%nat));
      unfold queue_push, slot_acquire, call_inference, catch_emit; count_simpl.
Qed.

Lemma predictions_step l st :
  count_events is_prediction (trace st) =
    count_events is_any_release (trace st) ->
  count_events is_prediction (trace (step l st)) =
    count_events is_any_release (trace (step l st)).
Proof.
  destruct predictions_dispatch as [Hp Hf]. intros H.
  destruct l as [sock data|data|rf now now'|k r now now'|k dots heat];
    cbn [step].
  - unfold on_frame.
    destruct (negb (truthy data) || negb (truthy (get data "imageBase64"))).
    { count_simpl. }
    destruct (60 <? _).
    { count_simpl. }
    apply Hp. count_simpl.
  - unfold on_updateThreshold.
    destruct (truthy data && truthy (get data "threshold")); count_simpl.
  - unfold on_predict, check_alert. destruct (alert_due _ _ _ _); count_simpl.
  - unfold on_inference_done.
    destruct (nth_error (pending st) k) as [[id it [|count preds]]|];
      try exact H.
    destruct r as [rf|message].
    + unfold check_alert. destruct (alert_due _ _ _ _); count_simpl.
    + apply Hf. unfold catch_emit. count_simpl.
  - unfold on_render_done.
    destruct (nth_error (pending st) k) as [[id it [|count preds]]|];
      try exact H.
    apply Hf. unfold catch_emit.
    destruct (drawDotsOnImage dots preds); [|count_simpl].
    destruct (generateHeatmap heat preds); count_simpl.
Qed.

(** X12.  Every frame that gives its slot back has been answered by exactly
    one [prediction] broadcast, successful or not, and no [prediction] is
    broadcast for anything else: after any run the number of [prediction]
    broadcasts equals the number of releases. *)
Theorem one_prediction_per_finished_frame (ls : list label) :
  let st := run ls init in
  count_events is_prediction (trace st) =
    count_events is_any_release (trace st).
Proof.
  apply (run_invariant
           (fun st => count_events is_prediction (trace st) =
                      count_events is_any_release (trace st)));
    [reflexivity|]. intros. now apply predictions_step.
Qed.

Lemma conservation_dispatch :
  (forall it st,
     Z.of_nat (count_events is_ack (trace st)) =
       Z.of_nat (List.length (queue st)) + Z.of_nat (List.length (pending st))
       + Z.of_nat (count_events is_any_release (trace st)) + 1 ->
     let s := processFrameAndEmit it st in
     Z.of_nat (count_events is_ack (trace s)) =
       Z.of_nat (List.length (queue s)) + Z.of_nat (List.length (pending s))
       + Z.of_nat (count_events is_any_release (trace s))) /\
  (forall id st,
     Z.of_nat (count_events is_ack (trace st)) =
       Z.of_nat (List.length (queue st)) + Z.of_nat (List.length (pending st))
       + Z.of_nat (count_events is_any_release (trace st)) + 1 ->
     let s := finally_block id st in
     Z.of_nat (count_events is_ack (trace s)) =
       Z.of_nat (List.length (queue s)) + Z.of_nat (List.length (pending s))
       + Z.of_nat (count_events is_any_release (trace s))).
Proof.
  split.
  - intros it st.
    apply (rule_processFrameAndEmit
             (fun s => Z.of_nat (count_events is_ack (trace s)) =
                Z.of_nat (List.length (queue s))
                + Z.of_nat (List.length (pending s))
                + Z.of_nat (count_events is_any_release (trace s)) + 1)
             (fun s => Z.of_nat (count_events is_ack (trace s)) =
                Z.of_nat (List.length (queue s))
                + Z.of_nat (List.length (pending s))
                + Z.of_nat (count_events is_any_release (trace s)))
             (fun _ s => Z.of_nat (count_events is_ack (trace s)) =
                Z.of_nat (List.length (queue s))
                + Z.of_nat (List.length (pending s))
                + Z.of_nat (count_events is_any_release (trace s)) + 1));
      unfold queue_push, slot_acquire, call_inference, catch_emit; count_simpl.
    match goal with H : queue _ = _ :: _ |- _ => rewrite H in * end.
    cbn [List.length] in *. lia.
  - intros id st.
    apply (rule_finally_block
             (fun s => Z.of_nat (count_events is_ack (trace s)) =
                Z.of_nat (List.length (queue s))
                + Z.of_nat (List.length (pending s))
                + Z.of_nat (count_events is_any_release (trace s)) + 1)
             (fun s => Z.of_nat (count_events is_ack (trace s)) =
                Z.of_nat (List.length (queue s))
                + Z.of_nat (List.length (pending s))
                + Z.of_nat (count_events is_any_release (trace s)))
             (fun _ s => Z.of_nat (count_events is_ack (trace s)) =
                Z.of_nat (List.length (queue s))
                + Z.of_nat (List.length (pending s))
                + Z.of_nat (count_events is_any_release (trace s)) + 1));
      unfold queue_push, slot_acquire, call_inference, catch_emit; count_simpl.
    match goal with H : queue _ = _ :: _ |- _ => rewrite H in * end.
    cbn [List.length] in *. lia.
Qed.

Lemma remove_nth_length {A : Type} k (l : list A) a :
  nth_error l k = Some a ->
  List.length l = S (List.length (remove_nth k l)).
Proof.
  intros Hk. destruct (nth_error_split _ _ Hk) as [l1 [l2 [-> Hlen]]].
  rewrite <- Hlen, remove_nth_middle, !length_app. cbn. lia.
Qed.

Lemma update_nth_length k id it ph ph' (l : list task) :
  nth_error l k = Some (mkTask id it ph) ->
  List.length (update_nth k (mkTask id it ph') l) = List.length l.
Proof.
  intros Hk. rewrite <- (length_map t_id), (update_nth_ids _ _ _ _ _ _ Hk).
  apply length_map.
Qed.

Lemma conservation_step l st :
  Z.of_nat (count_events is_ack (trace st)) =
    Z.of_nat (List.length (queue st)) + Z.of_nat (List.length (pending st))
    + Z.of_nat (count_events is_any_release (trace st)) ->
  let s := step l st in
  Z.of_nat (count_events is_ack (trace s)) =
    Z.of_nat (List.length (queue s)) + Z.of_nat (List.length (pending s))
    + Z.of_nat (count_events is_any_release (trace s)).
Proof.
  destruct conservation_dispatch as [Hp Hf]. intros H. cbv zeta.
  destruct l as [sock data|data|rf now now'|k r now now'|k dots heat];
    cbn [step].
  - unfold on_frame.
    destruct (negb (truthy data) || negb (truthy (get data "imageBase64"))).
    { count_simpl. }
    destruct (60 <? _).
    { count_simpl. }
    apply Hp. count_simpl.
  - unfold on_updateThreshold.
    destruct (truthy data && truthy (get data "threshold")); count_simpl.
  - unfold on_predict, check_alert. destruct (alert_due _ _ _ _); count_simpl.
  - unfold on_inference_done.
    destruct (nth_error (pending st) k) as [[id it [|count preds]]|] eqn:Hk;
      try exact H.
    destruct r as [rf|message].
    + cbn [trace queue pending set_pending].
      rewrite pending_check_alert,
        (update_nth_length _ _ _ _ _ _ Hk).
      unfold check_alert. destruct (alert_due _ _ _ _); count_simpl.
    + apply Hf. pose proof (remove_nth_length _ _ _ Hk).
      unfold catch_emit. count_simpl.
  - unfold on_render_done.
    destruct (nth_error (pending st) k) as [[id it [|count preds]]|] eqn:Hk;
      try exact H.
    apply Hf. pose proof (remove_nth_length _ _ _ Hk). unfold catch_emit.
    destruct (drawDotsOnImage dots preds); [|count_simpl].
    destruct (generateHeatmap heat preds); count_simpl.
Qed.

(** X13.  No acknowledged frame is lost or duplicated: after any run the
    number of [ack]s sent equals the number of frames waiting in the
    backlog, plus the number suspended in a slot, plus the number that have
    finished and released their slot. *)
Theorem acknowledged_frames_are_conserved (ls : list label) :
  let st := run ls init in
  Z.of_nat (count_events is_ack (trace st)) =
    Z.of_nat (List.length (queue st)) + Z.of_nat (List.length (pending st))
    + Z.of_nat (count_events is_any_release (trace st)).
Proof.
  apply (run_invariant
           (fun st =>
              Z.of_nat (count_events is_ack (trace st)) =
                Z.of_nat (List.length (queue st))
                + Z.of_nat (List.length (pending st))
                + Z.of_nat (count_events is_any_release (trace st))));
    [reflexivity|]. intros. now apply conservation_step.
Qed.

(** ** No frame waits while a slot is free *)

Lemma work_dispatch :
  (forall it st,
     queue st = [] \/ ge_limit (inFlight st + 1) MAX_CONCURRENT = true ->
     let s := processFrameAndEmit it st in
     queue s = [] \/ ge_limit (inFlight s) MAX_CONCURRENT = true) /\
  (forall id st,
     queue st = [] \/ ge_limit (inFlight st) MAX_CONCURRENT = true ->
     let s := finally_block id st in
     queue s = [] \/ ge_limit (inFlight s) MAX_CONCURRENT = true).
Proof.
  set (I := fun s =>
              queue s = [] \/ ge_limit (inFlight s + 1) MAX_CONCURRENT = true).
  set (Q := fun s =>
              queue s = [] \/ ge_limit (inFlight s) MAX_CONCURRENT = true).
  assert (Hpush : forall it st,
            I st -> ge_limit (inFlight st) MAX_CONCURRENT = true ->
            Q (queue_push it st)).
  { intros it st _ Hfull. right. exact Hfull. }
  assert (Hacq : forall it st,
            I st -> ge_limit (inFlight st) MAX_CONCURRENT = false ->
            Q (slot_acquire it st)).
  { intros it st HI _. exact HI. }
  assert (Hcall : forall id it st, Q st -> Q (call_inference id it st)).
  { intros id it st H. exact H. }
  assert (Hcatch : forall message st, Q st -> Q (catch_emit message st)).
  { intros message st H. exact H. }
  assert (Hrel : forall id st,
            Q st ->
            queue st = [] \/
            lt_limit (inFlight st - 1) MAX_CONCURRENT = false ->
            Q (log (Release id) (set_inFlight (inFlight st - 1) st))).
  { intros id st [H|H] [Hq|Hlt]; try (now left). right. state_simpl.
    rewrite (ge_limit_not_lt _ _ _ H), Hlt. reflexivity. }
  assert (Hshift : forall id st next rest,
            Q st -> queue st = next :: rest ->
            lt_limit (inFlight st - 1) MAX_CONCURRENT = true ->
            I (log (Shift next)
                 (set_queue rest
                    (log (Release id) (set_inFlight (inFlight st - 1) st))))).
  { intros id st next rest [H|H] Hq _; [congruence|]. right. state_simpl.
    now replace (inFlight st - 1 + 1) with (inFlight st) by lia. }
  split.
  - intros it st. apply (rule_processFrameAndEmit I Q (fun _ => Q)); auto.
  - intros id st. apply (rule_finally_block I Q (fun _ => Q)); auto.
Qed.

Lemma work_step l st :
  queue st = [] \/ ge_limit (inFlight st) MAX_CONCURRENT = true ->
  queue (step l st) = [] \/
  ge_limit (inFlight (step l st)) MAX_CONCURRENT = true.
Proof.
  destruct work_dispatch as [Hp Hf]. intros H.
  destruct l as [sock data|data|rf now now'|k r now now'|k dots heat];
    cbn [step].
  - unfold on_frame.
    destruct (negb (truthy data) || negb (truthy (get data "imageBase64")));
      [exact H|].
    destruct (60 <? _); [exact H|].
    apply Hp. state_simpl. destruct H as [H|H]; [now left|right].
    apply ge_limit_mono with (inFlight st); [exact H|lia].
  - unfold on_updateThreshold.
    destruct (truthy data && truthy (get data "threshold")); exact H.
  - unfold on_predict, check_alert. destruct (alert_due _ _ _ _); exact H.
  - unfold on_inference_done.
    destruct (nth_error (pending st) k) as [[id it [|count preds]]|];
      try exact H.
    destruct r as [rf|message].
    + unfold check_alert. destruct (alert_due _ _ _ _); exact H.
    + apply Hf. exact H.
  - unfold on_render_done.
    destruct (nth_error (pending st) k) as [[id it [|count preds]]|];
      try exact H.
    apply Hf. unfold catch_emit.
    destruct (drawDotsOnImage dots preds); [|exact H].
    destruct (generateHeatmap heat preds); exact H.
Qed.

Lemma work_run ls :
  queue (run ls init) = [] \/
  ge_limit (inFlight (run ls init)) MAX_CONCURRENT = true.
Proof.
  apply (run_invariant
           (fun st => queue st = [] \/
                      ge_limit (inFlight st) MAX_CONCURRENT = true));
    [now left|]. intros. now apply work_step.
Qed.

(** X14.  The dispatcher is work conserving: whenever control is back at the
    event loop, a frame waits in the backlog only if every slot is taken,
    [inFlight >= MAX_CONCURRENT]. *)
Theorem no_frame_waits_while_a_slot_is_free (ls : list label) :
  let st := run ls init in
  queue st = [] \/ ge_limit (inFlight st) MAX_CONCURRENT = true.
Proof. apply work_run. Qed.

(** ** A completion advances the backlog *)

Lemma no_growth_dispatch n :
  forall it st,
    (List.length (queue st) <= n)%nat /\
    ge_limit (inFlight st) MAX_CONCURRENT = false ->
    (List.length (queue (processFrameAndEmit it st)) <= n)%nat.
Proof.
  intros it st.
  apply (rule_processFrameAndEmit
           (fun s => (List.length (queue s) <= n)%nat /\
                     ge_limit (inFlight s) MAX_CONCURRENT = false)
           (fun s => (List.length (queue s) <= n)%nat)
           (fun _ s => (List.length (queue s) <= n)%nat));
    unfold queue_push, slot_acquire, call_inference, catch_emit;
    intros; state_simpl; try tauto; try lia.
  - match goal with H : _ /\ _ |- _ => destruct H end. congruence.
  - match goal with H : queue _ = _ :: _ |- _ => rewrite H in * end.
    cbn [List.length] in *. split; [lia|]. now apply lt_limit_not_ge.
Qed.

Lemma finally_block_shrinks id st :
  queue st <> [] -> lt_limit (inFlight st - 1) MAX_CONCURRENT = true ->
  (List.length (queue (finally_block id st)) < List.length (queue st))%nat.
Proof.
  intros Hq Hlt. rewrite finally_block_eq. cbv zeta.
  destruct (queue st) as [|next rest] eqn:E; [contradiction|].
  rewrite Hlt.
  cbn [List.length]. apply Nat.lt_succ_r, no_growth_dispatch.
  cbn. split; [lia|]. now apply lt_limit_not_ge.
Qed.

(** While frames wait and a frame is suspended, the slot of the suspended
    frame, once given back, is below the limit. *)
Lemma slot_free_after_release ls :
  let st := run ls init in
  queue st <> [] -> pending st <> [] ->
  lt_limit (inFlight st - 1) MAX_CONCURRENT = true.
Proof.
  intros st Hq Hp.
  destruct (work_run ls) as [Hw|Hw]; fold st in Hw; [contradiction|].
  destruct (slots_bounded_run ls) as [Hheld Hnever]. fold st in Hheld, Hnever.
  pose proof (never_above_held _ Hnever) as Hle. rewrite Hheld in Hle.
  pose proof (inv_count _ _ (slots_inv_run ls)) as Hcount. fold st in Hcount.
  destruct Hle as [Hle|Hle].
  - destruct (pending st); [contradiction|]. cbn [List.length] in Hcount. lia.
  - pose proof (ge_limit_not_lt _ (inFlight st - 1) _ Hw) as Hn.
    rewrite Hle in Hn. now destruct (lt_limit _ _).
Qed.

(** X15.  A completion advances the backlog, whatever the limit: if frames
    are waiting when a suspended frame finishes, because its inference call
    throws or because its renderers settle, the backlog is strictly shorter
    afterwards. *)
Theorem completion_advances_backlog (ls : list label) :
  let st := run ls init in
  queue st <> [] ->
  (forall k id it message now now',
     nth_error (pending st) k = Some (mkTask id it AwaitInference) ->
     (List.length
        (queue (step (inference_done k (Throw message) now now') st))
      < List.length (queue st))%nat) /\
  (forall k id it count preds dots heat,
     nth_error (pending st) k = Some (mkTask id it (AwaitRender count preds)) ->
     (List.length (queue (step (render_done k dots heat) st))
      < List.length (queue st))%nat).
Proof.
  intros st Hq.
  assert (Hfree : forall k t, nth_error (pending st) k = Some t ->
            lt_limit (inFlight st - 1) MAX_CONCURRENT = true).
  { intros k t Hk. apply slot_free_after_release; [exact Hq|].
    intros Hnil. fold st in Hnil. rewrite Hnil in Hk.
    now destruct k. }
  split.
  - intros k id it message now now' Hk. cbn [step].
    unfold on_inference_done. rewrite Hk.
    eapply Nat.lt_le_trans;
      [apply finally_block_shrinks; [exact Hq|exact (Hfree _ _ Hk)]
      |apply Nat.le_refl].
  - intros k id it count preds dots heat Hk. cbn [step].
    unfold on_render_done. rewrite Hk. unfold catch_emit.
    destruct (drawDotsOnImage dots preds);
      [destruct (generateHeatmap heat preds)|];
      (eapply Nat.lt_le_trans;
       [apply finally_block_shrinks; [exact Hq|exact (Hfree _ _ Hk)]
       |apply Nat.le_refl]).
Qed.

(** ** Alerts *)

Lemma alert_dispatch :
  (forall it st,
     count_events is_alert (trace (processFrameAndEmit it st)) =
       count_events is_alert (trace st)) /\
  (forall id st,
     count_events is_alert (trace (finally_block id st)) =
       count_events is_alert (trace st)).
Proof. apply dispatch_frame; reflexivity. Qed.

(** What a step does to the alert state: nothing, or one [alert] broadcast
    together with storing the clock reading [now'] of its label. *)
Lemma alert_step l st :
  (count_events is_alert (trace (step l st)) =
     count_events is_alert (trace st) /\
   lastAlertTime (step l st) = lastAlertTime st) \/
  (count_events is_alert (trace (step l st)) =
     S (count_events is_alert (trace st)) /\
   exists count now now',
     ((exists rf, l = predict rf now now') \/
      (exists k rf, l = inference_done k (Ok rf) now now')) /\
     alert_due (ALERT_THRESHOLD st) (lastAlertTime st) count now = true /\
     lastAlertTime (step l st) = now').
Proof.
  destruct alert_dispatch as [Hp Hf].
  destruct dispatch_alert_state as [Sp Sf].
  assert (Hcheck : forall count now now',
            (count_events is_alert (trace (check_alert count now now' st)) =
               count_events is_alert (trace st) /\
             lastAlertTime (check_alert count now now' st) = lastAlertTime st)
            \/
            (count_events is_alert (trace (check_alert count now now' st)) =
               S (count_events is_alert (trace st)) /\
             alert_due (ALERT_THRESHOLD st) (lastAlertTime st) count now = true
             /\ lastAlertTime (check_alert count now now' st) = now')).
  { intros count now now'. unfold check_alert.
    destruct (alert_due _ _ _ _); [right|left; now split].
    cbn. rewrite count_events_snoc. cbn. split; [lia|now split]. }
  destruct l as [sock data|data|rf now now'|k r now now'|k dots heat];
    cbn [step].
  - left. unfold on_frame.
    destruct (negb (truthy data) || negb (truthy (get data "imageBase64"))).
    { cbn. rewrite count_events_snoc. cbn. split; [lia|reflexivity]. }
    destruct (60 <? _).
    { cbn. rewrite count_events_snoc. cbn. split; [lia|reflexivity]. }
    rewrite Hp. destruct (Sp (mkItem sock (get data "imageBase64"))
                            (log (socket_emit sock ack) st)) as [_ ->].
    cbn. rewrite count_events_snoc. cbn. split; [lia|reflexivity].
  - left. unfold on_updateThreshold.
    destruct (truthy data && truthy (get data "threshold")); [|now split].
    cbn. rewrite count_events_snoc. cbn. split; [lia|reflexivity].
  - unfold on_predict.
    destruct (Hcheck (predict_count (first_output rf)) now now')
      as [H|[H1 [H2 H3]]]; [now left|right].
    split; [exact H1|]. exists (predict_count (first_output rf)), now, now'.
    split; [|now split]. left. now exists rf.
  - unfold on_inference_done.
    destruct (nth_error (pending st) k) as [[id it [|count preds]]|];
      try (left; now split).
    destruct r as [rf|message].
    + cbn [trace lastAlertTime set_pending].
      destruct (Hcheck (frame_count (first_output rf)) now now')
        as [H|[H1 [H2 H3]]]; [now left|right].
      split; [exact H1|]. exists (frame_count (first_output rf)), now, now'.
      split; [|now split]. right. now exists k, rf.
    + left. rewrite Hf.
      destruct (Sf id (catch_emit message
                         (set_pending (remove_nth k (pending st)) st)))
        as [_ ->].
      cbn. rewrite count_events_snoc. cbn. split; [lia|reflexivity].
  - left. unfold on_render_done.
    destruct (nth_error (pending st) k) as [[id it [|count preds]]|];
      try now split.
    rewrite Hf.
    match goal with
    | |- context [finally_block id ?s] => destruct (Sf id s) as [_ ->]
    end.
    unfold catch_emit.
    destruct (drawDotsOnImage dots preds);
      [destruct (generateHeatmap heat preds)|];
      cbn; rewrite count_events_snoc; cbn; (split; [lia|reflexivity]).
Qed.

Lemma threshold_step l st :
  (forall data, l <> updateThreshold data) ->
  ALERT_THRESHOLD (step l st) = ALERT_THRESHOLD st.
Proof.
  destruct dispatch_alert_state as [Sp Sf]. intros Hl.
  destruct l as [sock data|data|rf now now'|k r now now'|k dots heat];
    cbn [step].
  - unfold on_frame.
    destruct (negb (truthy data) || negb (truthy (get data "imageBase64")));
      [reflexivity|].
    destruct (60 <? _); [reflexivity|].
    now destruct (Sp (mkItem sock (get data "imageBase64"))
                    (log (socket_emit sock ack) st)) as [-> _].
  - now destruct (Hl data).
  - unfold on_predict, check_alert. now destruct (alert_due _ _ _ _).
  - unfold on_inference_done.
    destruct (nth_error (pending st) k) as [[id it [|count preds]]|];
      try reflexivity.
    destruct r as [rf|message].
    + unfold check_alert. now destruct (alert_due _ _ _ _).
    + now destruct (Sf id (catch_emit message
                             (set_pending (remove_nth k (pending st)) st)))
        as [-> _].
  - unfold on_render_done.
    destruct (nth_error (pending st) k) as [[id it [|count preds]]|];
      try reflexivity.
    match goal with
    | |- context [finally_block id ?s] => destruct (Sf id s) as [-> _]
    end.
    unfold catch_emit.
    destruct (drawDotsOnImage dots preds);
      [destruct (generateHeatmap heat preds)|]; reflexivity.
Qed.

(** X16.  The alert state changes only where it is meant to.  The threshold
    is changed by [updateThreshold] events alone.  The time of the last alert
    is changed only by a step that broadcasts an [alert], which is the check
    of [POST /predict] or of a frame whose inference returned, and then it
    becomes the clock reading of that step; every other step broadcasts no
    [alert]. *)
Theorem alert_state_changes_only_with_its_events (l : label) (st : state) :
  ((forall data, l <> updateThreshold data) ->
   ALERT_THRESHOLD (step l st) = ALERT_THRESHOLD st) /\
  ((count_events is_alert (trace (step l st)) =
      count_events is_alert (trace st) /\
    lastAlertTime (step l st) = lastAlertTime st) \/
   (count_events is_alert (trace (step l st)) =
      S (count_events is_alert (trace st)) /\
    exists count now now',
      ((exists rf, l = predict rf now now') \/
       (exists k rf, l = inference_done k (Ok rf) now now')) /\
      alert_due (ALERT_THRESHOLD st) (lastAlertTime st) count now = true /\
      lastAlertTime (step l st) = now')).
Proof.
  split; [apply threshold_step|apply alert_step].
Qed.

Lemma alert_window_step a n0 l st :
  clocks_within a l ->
  count_events is_alert (trace st) = n0 \/
  (count_events is_alert (trace st) = S n0 /\ a <= lastAlertTime st) ->
  count_events is_alert (trace (step l st)) = n0 \/
  (count_events is_alert (trace (step l st)) = S n0 /\
   a <= lastAlertTime (step l st)).
Proof.
  intros Hl G.
  destruct (alert_step l st)
    as [[H1 H2]|[H1 [count [now [now' [Hlab [Hdue Hlast]]]]]]].
  - rewrite H1, H2. exact G.
  - assert (Hclk : a <= now <= a + ALERT_COOLDOWN /\
                   a <= now' <= a + ALERT_COOLDOWN).
    { destruct Hlab as [[rf ->]|[k [rf ->]]]; exact Hl. }
    unfold alert_due in Hdue. apply andb_true_iff in Hdue as [_ Hdue].
    apply Z.ltb_lt in Hdue.
    destruct G as [G|[G Ha]]; [|lia].
    right. rewrite H1, G, Hlast. split; [reflexivity|lia].
Qed.

Lemma alert_window_run a n0 ls :
  Forall (clocks_within a) ls ->
  forall st,
    count_events is_alert (trace st) = n0 \/
    (count_events is_alert (trace st) = S n0 /\ a <= lastAlertTime st) ->
    count_events is_alert (trace (run ls st)) = n0 \/
    (count_events is_alert (trace (run ls st)) = S n0 /\
     a <= lastAlertTime (run ls st)).
Proof.
  induction 1 as [|l ls Hl _ IH]; intros st G; [exact G|].
  apply (IH (step l st)). now apply alert_window_step.
Qed.

(** X17.  Alerts are rate limited.  Over any stretch of steps whose clock
    readings all lie within one cooldown of 300000 ms after some time [a],
    at most one [alert] is broadcast, whatever the counts, the threshold and
    the state the stretch starts from. *)
Theorem at_most_one_alert_per_cooldown (a : Z) (ls : list label) (st : state) :
  Forall (clocks_within a) ls ->
  (count_events is_alert (trace (run ls st)) <=
   S (count_events is_alert (trace st)))%nat.
Proof.
  intros Hls.
  destruct (alert_window_run a (count_events is_alert (trace st)) ls Hls st
              (or_introl eq_refl)) as [->|[-> _]]; lia.
Qed.

End Dispatcher.

(* ===================================================================== *)
(** * Alert check *)
(* ===================================================================== *)

Lemma alert_due_iff threshold last count now :
  alert_due (Int threshold) last count now = true <->
  threshold <= count /\ now - last > ALERT_COOLDOWN.
Proof.
  unfold alert_due, ge_num. rewrite andb_true_iff, Z.leb_le, Z.ltb_lt. lia.
Qed.

Lemma alert_due_cooling threshold last count now :
  now - last <= ALERT_COOLDOWN -> alert_due threshold last count now = false.
Proof.
  intros H. unfold alert_due. apply andb_false_iff. right. now apply Z.ltb_ge.
Qed.

Lemma check_alert_fires count now now' st :
  alert_due (ALERT_THRESHOLD st) (lastAlertTime st) count now = true ->
  check_alert count now now' st =
    log (io_emit (alert count (ALERT_THRESHOLD st))) (set_lastAlertTime now' st).
Proof. unfold check_alert. now intros ->. Qed.

Lemma check_alert_quiet count now now' st :
  alert_due (ALERT_THRESHOLD st) (lastAlertTime st) count now = false ->
  check_alert count now now' st = st.
Proof. unfold check_alert. now intros ->. Qed.

(** C5, as the code has it.  With a numeric threshold the check fires exactly
    when [count >= threshold] and [now - lastAlertTime > ALERT_COOLDOWN],
    the cooldown of 300000 ms having to be exceeded, not just reached; when
    it fires it broadcasts [alert] and stores the clock, otherwise it does
    nothing.  With threshold 5 and a clock [T0] that is past the first
    cooldown (as [Date.now()] is), the counts 3, 6, 7, 2, 8 sampled 0 s, 1 s,
    2 s, 150 s and 151 s after [T0] raise one alert, for the count 6; after
    it no count raises an alert up to and including 301 s after [T0], and a
    count of at least 5 raises one at any later time. *)
Theorem alert_fires_on_threshold_after_cooldown :
  (forall threshold last count now,
     alert_due (Int threshold) last count now = true <->
     threshold <= count /\ now - last > ALERT_COOLDOWN) /\
  (forall count now now' st,
     check_alert count now now' st =
       if alert_due (ALERT_THRESHOLD st) (lastAlertTime st) count now
       then log (io_emit (alert count (ALERT_THRESHOLD st)))
              (set_lastAlertTime now' st)
       else st) /\
  (forall T0,
     ALERT_COOLDOWN < T0 ->
     let sample := fun (s : state) (c : Z * Z) =>
                     check_alert (fst c) (snd c) (snd c) s in
     let st := fold_left sample
                 [(3, T0); (6, T0 + 1000); (7, T0 + 2000);
                  (2, T0 + 150000); (8, T0 + 151000)]
                 (set_ALERT_THRESHOLD (Int 5) init) in
     trace st = [io_emit (alert 6 (Int 5))] /\
     lastAlertTime st = T0 + 1000 /\
     (forall count now,
        now <= T0 + 301000 ->
        check_alert count now now st = st) /\
     (forall count now,
        5 <= count -> T0 + 301000 < now ->
        trace (check_alert count now now st) =
          [io_emit (alert 6 (Int 5)); io_emit (alert count (Int 5))])).
Proof.
  split; [exact alert_due_iff|]. split; [reflexivity|].
  intros T0 HT0 sample st.
  assert (Hst : st = log (io_emit (alert 6 (Int 5)))
                       (set_lastAlertTime (T0 + 1000)
                          (set_ALERT_THRESHOLD (Int 5) init))).
  { unfold st, sample, ALERT_COOLDOWN in *. cbn [fold_left fst snd].
    rewrite (check_alert_quiet 3) by reflexivity.
    rewrite (check_alert_fires 6)
      by (apply alert_due_iff; cbn; unfold ALERT_COOLDOWN; lia).
    rewrite (check_alert_quiet 7)
      by (apply alert_due_cooling; cbn; unfold ALERT_COOLDOWN; lia).
    rewrite (check_alert_quiet 2) by reflexivity.
    rewrite (check_alert_quiet 8)
      by (apply alert_due_cooling; cbn; unfold ALERT_COOLDOWN; lia).
    reflexivity. }
  rewrite Hst. cbn [trace lastAlertTime log set_lastAlertTime
                    set_ALERT_THRESHOLD init app].
  split; [reflexivity|]. split; [reflexivity|]. split.
  - intros count now Hnow. apply check_alert_quiet, alert_due_cooling.
    cbn. unfold ALERT_COOLDOWN. lia.
  - intros count now Hcount Hnow. rewrite check_alert_fires; [reflexivity|].
    apply alert_due_iff. cbn. unfold ALERT_COOLDOWN. lia.
Qed.

(** C5, as stated, fails where the cooldown has just been reached: 300000 ms
    after an alert a count above the threshold raises no alert.  It also
    fails on its sample when the times are taken as clock values: 1000 ms
    after the initial [lastAlertTime] of 0 the cooldown has not passed, and
    none of the five counts raises an alert. *)
Lemma alert_not_fired_when_cooldown_just_reached :
  5 <= 8 /\ 301000 - 1000 >= ALERT_COOLDOWN /\
  alert_due (Int 5) 1000 8 301000 = false /\
  check_alert 8 301000 301000
    (set_lastAlertTime 1000 (set_ALERT_THRESHOLD (Int 5) init)) =
    set_lastAlertTime 1000 (set_ALERT_THRESHOLD (Int 5) init) /\
  trace (fold_left
           (fun (s : state) (c : Z * Z) => check_alert (fst c) (snd c) (snd c) s)
           [(3, 0); (6, 1000); (7, 2000); (2, 150000); (8, 151000)]
           (set_ALERT_THRESHOLD (Int 5) init)) = [].
Proof. unfold ALERT_COOLDOWN. repeat split; lia. Qed.

(* ===================================================================== *)
(** * Reported count *)
(* ===================================================================== *)

(** C6.  [processFrameAndEmit] reports an explicit non-zero count as it is
    and the number of detections when the count is missing, but an explicit
    count of 0 is replaced by the number of detections too: for a response
    with [count_objects: 0] and one detection it reports 1.  [POST /predict]
    keeps an explicit 0, and reports 0 rather than the number of detections
    when the count is missing. *)
Theorem explicit_zero_count_reported_as_length :
  frame_count
    (mkOutput (Some 0)
       (Some [PObj (Pred.mk (Some 10%float) (Some 20%float) (Some 4%float)
                            (Some 4%float) (Some 0.9%float))])) = 1 /\
  (forall preds,
     frame_count (mkOutput (Some 0) (Some preds)) =
       Z.of_nat (List.length preds)) /\
  (forall c preds, c <> 0 -> frame_count (mkOutput (Some c) preds) = c) /\
  (forall preds,
     frame_count (mkOutput None (Some preds)) = Z.of_nat (List.length preds)) /\
  (forall c preds, predict_count (mkOutput (Some c) preds) = c) /\
  (forall preds, predict_count (mkOutput None preds) = 0).
Proof.
  repeat split.
  intros c preds Hc. unfold frame_count. cbn.
  destruct (Z.eqb_spec c 0); [contradiction|reflexivity].
Qed.

(* ===================================================================== *)
(** * Renderers *)
(* ===================================================================== *)

Lemma float_zero_cases (f : float) :
  PrimFloat.eqb f 0 = true -> f = 0%float \/ f = (-0)%float.
Proof.
  rewrite FloatAxioms.eqb_spec. intros H.
  rewrite <- (FloatAxioms.SF2Prim_Prim2SF f).
  destruct (Prim2SF f) as [[|]|[|]| |[|] m e]; try discriminate H.
  - now right.
  - now left.
Qed.

Lemma missing_or_zero_falsy v :
  missing_or_zero v -> truthy_number v = false.
Proof.
  destruct v as [f|]; cbn; [|reflexivity]. now intros ->.
Qed.

Lemma draw_dot_guarded_app ctx pr :
  draw_dot_guarded ctx pr = ctx ++ draw_dot_guarded [] pr.
Proof.
  unfold draw_dot_guarded, draw_dot. destruct pr as [|p].
  - now rewrite app_nil_r.
  - destruct (truthy_number (Pred.x p) && truthy_number (Pred.y p)).
    + reflexivity.
    + now rewrite app_nil_r.
Qed.

Lemma fold_draw_dot_guarded preds ctx :
  fold_left draw_dot_guarded preds ctx =
    ctx ++ flat_map (draw_dot_guarded []) preds.
Proof.
  revert ctx. induction preds as [|pr preds IH]; intros ctx; cbn [fold_left flat_map].
  - now rewrite app_nil_r.
  - rewrite IH, (draw_dot_guarded_app ctx pr). now rewrite app_assoc.
Qed.

(** C7.  The overlay is the background followed by what each detection
    contributes on its own, so no detection can abort the others.  A
    detection whose [x] or [y] is missing or zero contributes nothing, and so
    does a [null] entry.  A detection with non-zero [x] and [y] whose
    [width] and [height] are zero is drawn as a filled arc at [(x, y)] of
    radius exactly 5, the lower end of the clamp, with its label to the
    right. *)
Theorem overlay_skips_missing_xy_and_uses_radius_5 :
  (forall img preds,
     drawDotsOnImage (Ok img) preds =
       Ok ([ createCanvas (Img.width img) (Img.height img);
             drawImage img 0 0;
             set_fillStyle (Color "rgba(0, 0, 0, 0.7)");
             fillRect 10 10 150 60;
             set_fillStyle (Color "white");
             set_font "bold 24px Arial";
             fillText (PeopleText (List.length preds)) 20 40;
             set_fillStyle red ]
           ++ flat_map (draw_dot_guarded []) preds)) /\
  (forall p,
     missing_or_zero (Pred.x p) \/ missing_or_zero (Pred.y p) ->
     draw_dot_guarded [] (PObj p) = []) /\
  draw_dot_guarded [] PNull = [] /\
  (forall x y w h c,
     truthy_number (Some x) = true -> truthy_number (Some y) = true ->
     PrimFloat.eqb w 0 = true -> PrimFloat.eqb h 0 = true ->
     let p := Pred.mk (Some x) (Some y) (Some w) (Some h) c in
     dotSize p = 5%float /\
     draw_dot_guarded [] (PObj p) =
       [ beginPath;
         arc x y 5 0 (PrimFloat.mul Math_PI 2);
         fill;
         set_fillStyle (Color "white");
         set_font "12px Arial";
         fillText (PercentText (PrimFloat.mul (to_number c) 100))
                  (PrimFloat.add (PrimFloat.add x 5) 2) y;
         set_fillStyle red ]).
Proof.
  split; [|split; [|split]].
  - intros img preds. unfold drawDotsOnImage.
    now rewrite fold_draw_dot_guarded.
  - intros p H. unfold draw_dot_guarded, draw_dot.
    destruct H as [H|H]; apply missing_or_zero_falsy in H; rewrite H;
      [reflexivity|]. now rewrite andb_false_r.
  - reflexivity.
  - intros x y w h c Hx Hy Hw Hh p.
    assert (Hdot : dotSize p = 5%float).
    { unfold p, dotSize. cbn [Pred.width Pred.height to_number].
      destruct (float_zero_cases w Hw) as [-> | ->],
               (float_zero_cases h Hh) as [-> | ->]; reflexivity. }
    split; [exact Hdot|].
    unfold draw_dot_guarded, draw_dot. rewrite Hdot.
    cbn [Pred.x Pred.y Pred.confidence p]. rewrite Hx, Hy. reflexivity.
Qed.

(** C8.  [generateHeatmap] has no handler around the body of its loop: a
    [null] entry among the detections makes it throw, whatever follows, while
    [drawDotsOnImage] skips the entry and draws the rest.  The frame then
    fails as a whole: the viewers are sent [prediction] with
    [success: false]. *)
Theorem heatmap_aborts_on_null_detection :
  let good := PObj (Pred.mk (Some 10%float) (Some 20%float) (Some 4%float)
                            (Some 4%float) (Some 0.9%float)) in
  let img := Ok (Img.mk 640 480) in
  let data := JObj [("imageBase64", JStr "AAAA")] in
  let rf := mkResponse (Some [mkOutput (Some 2) (Some [PNull; good])]) in
  (forall im preds,
     generateHeatmap (Ok im) (PNull :: preds) = Throw (TypeError_null "x")) /\
  (exists c, drawDotsOnImage img [PNull; good] = Ok c /\
             In (arc 10 20 5 0 (PrimFloat.mul Math_PI 2)) c) /\
  trace (run default_MAX_CONCURRENT Buffer_from_strict
           [frame 1%nat data;
            inference_done 0 (Ok rf) 1000 1000;
            render_done 0 img img] init) =
    [ socket_emit 1 ack;
      Acquire 0 (mkItem 1 (JStr "AAAA"));
      Call 0 (mkItem 1 (JStr "AAAA"));
      io_emit (prediction_fail "Cannot read properties of null (reading 'x')");
      Release 0 ].
Proof.
  intros good img data rf. split; [reflexivity|]. split.
  - eexists. split; [reflexivity|]. cbn. tauto.
  - vm_compute. reflexivity.
Qed.

(* ===================================================================== *)
(** * Threshold updates *)
(* ===================================================================== *)

(** C10, as the code has it.  An [updateThreshold] event whose payload or
    whose [threshold] field is missing, zero or otherwise falsy changes
    nothing and broadcasts nothing.  An event with a truthy [threshold]
    sets the threshold to [parseInt] of it and broadcasts
    [thresholdUpdated] with the new value.  The number 0 is therefore
    ignored, but a truthy value that [parseInt] reads as 0, such as the
    string ["0"], sets the threshold to 0. *)
Theorem updateThreshold_needs_truthy_threshold :
  (forall data st,
     truthy data = false \/ truthy (get data "threshold") = false ->
     on_updateThreshold data st = st) /\
  (forall data st,
     truthy data = true -> truthy (get data "threshold") = true ->
     let st' := on_updateThreshold data st in
     ALERT_THRESHOLD st' = parseInt (get data "threshold") /\
     trace st' =
       trace st ++ [io_emit (thresholdUpdated (parseInt (get data "threshold")))] /\
     inFlight st' = inFlight st /\ queue st' = queue st /\
     pending st' = pending st /\ lastAlertTime st' = lastAlertTime st) /\
  (forall st,
     on_updateThreshold (JObj [("threshold", JNum 0)]) st = st /\
     on_updateThreshold (JObj []) st = st /\
     on_updateThreshold JUndefined st = st) /\
  (forall st,
     ALERT_THRESHOLD (on_updateThreshold (JObj [("threshold", JStr "0")]) st) =
       Int 0).
Proof.
  split; [|split; [|split]].
  - intros data st H. unfold on_updateThreshold.
    destruct H as [-> | ->]; [reflexivity|]. now rewrite andb_false_r.
  - intros data st Hd Ht st'. unfold st', on_updateThreshold.
    rewrite Hd, Ht. cbn. repeat split.
  - intros st. repeat split.
  - reflexivity.
Qed.

(** C10, as stated, fails: the string ["0"] is truthy and [parseInt] reads it
    as 0, so the event sets the threshold to 0 and broadcasts it. *)
Lemma threshold_set_to_zero_by_string :
  let data := JObj [("threshold", JStr "0")] in
  let st' := step default_MAX_CONCURRENT Buffer_from_strict
               (updateThreshold data) init in
  truthy (get data "threshold") = true /\
  ALERT_THRESHOLD init = Int 15 /\
  ALERT_THRESHOLD st' = Int 0 /\
  trace st' = [io_emit (thresholdUpdated (Int 0))].
Proof. repeat split. Qed.

(* ===================================================================== *)
(** * Concrete runs *)
(* ===================================================================== *)

(** Three submissions with two slots: the first two are sent to the service,
    the third waits; when the first call fails, its slot goes to the third. *)
Example three_frames_two_slots :
  let data := fun n => JObj [("imageBase64", JStr n)] in
  let st := run default_MAX_CONCURRENT Buffer_from_strict
              [frame 1%nat (data "a"); frame 2%nat (data "b");
               frame 3%nat (data "c");
               inference_done 0 (Throw "timeout of 30000ms exceeded") 0 0]
              init in
  trace st =
    [ socket_emit 1 ack; Acquire 0 (mkItem 1 (JStr "a"));
      Call 0 (mkItem 1 (JStr "a"));
      socket_emit 2 ack; Acquire 1 (mkItem 2 (JStr "b"));
      Call 1 (mkItem 2 (JStr "b"));
      socket_emit 3 ack; Push (mkItem 3 (JStr "c"));
      io_emit (prediction_fail "timeout of 30000ms exceeded");
      Release 0; Shift (mkItem 3 (JStr "c"));
      Acquire 2 (mkItem 3 (JStr "c")); Call 2 (mkItem 3 (JStr "c")) ] /\
  inFlight st = 2 /\ queue st = [] /\
  dispatched_from_backlog (trace st) = [mkItem 3 (JStr "c")] /\
  replied (trace st) = [1; 2; 3]%nat.
Proof. vm_compute. repeat split. Qed.

(** C2 at the default limit of 2: three submissions, two of them admitted,
    and the counter does not exceed the limit. *)
Lemma inFlight_bounded_by_default_limit :
  let data := JObj [("imageBase64", JStr "AAAA")] in
  let st := run default_MAX_CONCURRENT Buffer_from_strict
              [frame 1%nat data; frame 2%nat data; frame 3%nat data] init in
  inFlight st = 2 /\
  List.length (queue st) = 1%nat /\
  inFlight st <= 2 /\
  gt_limit (inFlight st) default_MAX_CONCURRENT = false /\
  held (trace st) = inFlight st.
Proof.
  intros data st.
  destruct (inFlight_exceeds_MAX_CONCURRENT_by_less_than_1
              default_MAX_CONCURRENT Buffer_from_strict
              [frame 1%nat data; frame 2%nat data; frame 3%nat data])
    as [_ [_ [H2 [_ [H4 _]]]]].
  destruct (H4 2 eq_refl ltac:(lia)) as [Ha [Hb _]].
  split; [reflexivity|]. split; [reflexivity|].
  split; [exact Ha|]. split; [exact Hb|exact H2].
Defined.

(** C2, as stated, fails for a limit that is not an integer.  With
    [MAX_CONCURRENT=1.5] in the environment the guard [1 >= 1.5] is false,
    so a second frame is admitted while one is in flight: two inference
    calls are in flight, which exceeds the limit.  It also fails for a
    negative limit, which the counter exceeds from the start. *)
Lemma inFlight_exceeds_fractional_limit :
  let data := JObj [("imageBase64", JStr "AAAA")] in
  let st := run (Finite (3 # 2)) Buffer_from_strict
              [frame 1%nat data; frame 2%nat data] init in
  ge_limit 1 (Finite (3 # 2)) = false /\
  inFlight st = 2 /\
  gt_limit (inFlight st) (Finite (3 # 2)) = true /\
  trace st =
    [ socket_emit 1 ack; Acquire 0 (mkItem 1 (JStr "AAAA"));
      Call 0 (mkItem 1 (JStr "AAAA"));
      socket_emit 2 ack; Acquire 1 (mkItem 2 (JStr "AAAA"));
      Call 1 (mkItem 2 (JStr "AAAA")) ] /\
  gt_limit (inFlight init) (Finite (inject_Z (-1))) = true.
Proof. vm_compute. repeat split. Qed.

(** C3, as stated, fails: with both slots taken and 60 entries backlogged,
    one more submission is acknowledged and becomes entry 61. *)
Lemma backlog_reaches_61 :
  let data := JObj [("imageBase64", JStr "AAAA")] in
  let st := run default_MAX_CONCURRENT Buffer_from_strict
              (repeat (frame 1%nat data) 62) init in
  let st' := step default_MAX_CONCURRENT Buffer_from_strict
               (frame 7%nat data) st in
  inFlight st = 2 /\
  List.length (queue st) = 60%nat /\
  List.length (queue st') = 61%nat /\
  trace st' = trace st ++ [socket_emit 7 ack; Push (mkItem 7 (JStr "AAAA"))].
Proof. vm_compute. repeat split. Qed.

(** C9 for a payload that has no [imageBase64] field. *)
Lemma frame_without_image_field_rejected :
  let st' := step default_MAX_CONCURRENT Buffer_from_strict
               (frame 1%nat (JObj [])) init in
  truthy (get (JObj []) "imageBase64") = false /\
  trace st' = [socket_emit 1 (prediction_fail "No frame provided")] /\
  queue st' = [] /\
  inFlight st' = 0.
Proof.
  destruct (frame_without_image_is_rejected default_MAX_CONCURRENT
              Buffer_from_strict 1%nat (JObj []) init (or_intror eq_refl))
    as [_ [H1 [H2 [H3 _]]]].
  repeat split; assumption.
Defined.

(* ===================================================================== *)
(** * Upload file names *)
(* ===================================================================== *)

Lemma sanitize_chars name :
  Forall (fun c => is_safe_char c = true) (list_ascii_of_string (sanitize name)).
Proof.
  induction name as [|c rest IH]; cbn [sanitize list_ascii_of_string];
    constructor; [|exact IH].
  destruct (is_safe_char c) eqn:E; [exact E|reflexivity].
Qed.

Lemma sanitize_safe_name name :
  Forall (fun c => is_safe_char c = true) (list_ascii_of_string name) ->
  sanitize name = name.
Proof.
  induction name as [|c rest IH]; cbn [sanitize list_ascii_of_string];
    [reflexivity|].
  intros H. inversion H as [|? ? Hc Hrest]; subst.
  now rewrite Hc, IH.
Qed.

Lemma sanitize_length name :
  String.length (sanitize name) = String.length name.
Proof.
  induction name as [|c rest IH]; cbn; [reflexivity|]. now rewrite IH.
Qed.

(** X1.  The sanitised name of an upload has the length of the original
    name and consists of letters, digits, underscores, dots and hyphens
    only; in particular it holds no slash, backslash or NUL.  A name that
    already consists of such characters is kept, so sanitising twice is
    sanitising once. *)
Theorem sanitize_keeps_length_and_safe_chars (name : string) :
  String.length (sanitize name) = String.length name /\
  Forall (fun c => is_safe_char c = true /\
                   c <> "/"%char /\ c <> "\"%char /\ c <> Ascii.zero)
         (list_ascii_of_string (sanitize name)) /\
  (Forall (fun c => is_safe_char c = true) (list_ascii_of_string name) ->
   sanitize name = name) /\
  sanitize (sanitize name) = sanitize name.
Proof.
  split; [|split; [|split]].
  - apply sanitize_length.
  - eapply Forall_impl; [|apply sanitize_chars].
    intros c Hc. split; [exact Hc|].
    repeat split; intros ->; discriminate Hc.
  - apply sanitize_safe_name.
  - apply sanitize_safe_name, sanitize_chars.
Qed.

Lemma string_of_uint_chars u :
  Forall (fun c => is_safe_char c = true)
         (list_ascii_of_string (NilEmpty.string_of_uint u)).
Proof.
  induction u; cbn [NilEmpty.string_of_uint list_ascii_of_string];
    constructor; try assumption; reflexivity.
Qed.

Lemma list_ascii_of_string_append s1 s2 :
  list_ascii_of_string (String.append s1 s2) =
    list_ascii_of_string s1 ++ list_ascii_of_string s2.
Proof.
  induction s1 as [|c s1 IH]; cbn; [reflexivity|]. now rewrite IH.
Qed.

Lemma string_length_append s1 s2 :
  String.length (String.append s1 s2) =
    (String.length s1 + String.length s2)%nat.
Proof.
  induction s1 as [|c s1 IH]; cbn; [reflexivity|]. now rewrite IH.
Qed.

(** X2.  The name an upload is stored under, the clock reading followed by
    a hyphen and the sanitised original name, consists of letters, digits,
    underscores, dots and hyphens only, whatever the original name and the
    clock: it cannot name a file outside the upload directory. *)
Theorem upload_filename_has_safe_chars (now : Z) (originalname : string) :
  Forall (fun c => is_safe_char c = true /\ c <> "/"%char /\ c <> "\"%char)
         (list_ascii_of_string (upload_filename now originalname)) /\
  String.length (upload_filename now originalname) =
    (String.length (ToString (JNum now)) + 1
     + String.length originalname)%nat.
Proof.
  split.
  - eapply Forall_impl with (P := fun c => is_safe_char c = true).
    { intros c Hc. split; [exact Hc|]. split; intros ->; discriminate Hc. }
    unfold upload_filename. rewrite !list_ascii_of_string_append.
    apply Forall_app. split; [|apply Forall_app; split].
    + cbn [ToString]. unfold NilZero.string_of_int, NilZero.string_of_uint.
      destruct (Z.to_int now) as [u|u].
      * destruct u; try apply string_of_uint_chars.
        repeat constructor.
      * cbn [list_ascii_of_string]. constructor; [reflexivity|].
        destruct u; try apply string_of_uint_chars. repeat constructor.
    + repeat constructor.
    + apply sanitize_chars.
  - unfold upload_filename. rewrite !string_length_append.
    rewrite sanitize_length. cbn [String.length]. lia.
Qed.

(* ===================================================================== *)
(** * parseInt on integers *)
(* ===================================================================== *)

Lemma parse_digits_step c d rest acc :
  digit_value c = Some d -> d < 10 ->
  parse_digits 10 (String c rest) acc =
    parse_digits 10 rest
      (Some (10 * match acc with Some a => a | None => 0 end + d)).
Proof.
  intros Hc Hd. cbn [parse_digits]. rewrite Hc.
  apply Z.ltb_lt in Hd. now rewrite Hd.
Qed.

Ltac parse_digit d :=
  rewrite (parse_digits_step _ d) by (reflexivity || lia).

Lemma parse_digits_of_uint_acc u (a : positive) :
  parse_digits 10 (NilEmpty.string_of_uint u) (Some (Zpos a)) =
    Some (Zpos (Pos.of_uint_acc u a)).
Proof.
  revert a.
  induction u; intros a; cbn [NilEmpty.string_of_uint Pos.of_uint_acc];
    [reflexivity|..].
  - parse_digit 0. replace (10 * Z.pos a + 0) with (Z.pos (10 * a)) by lia.
    apply IHu.
  - parse_digit 1. replace (10 * Z.pos a + 1) with (Z.pos (1 + 10 * a)) by lia.
    apply IHu.
  - parse_digit 2. replace (10 * Z.pos a + 2) with (Z.pos (2 + 10 * a)) by lia.
    apply IHu.
  - parse_digit 3. replace (10 * Z.pos a + 3) with (Z.pos (3 + 10 * a)) by lia.
    apply IHu.
  - parse_digit 4. replace (10 * Z.pos a + 4) with (Z.pos (4 + 10 * a)) by lia.
    apply IHu.
  - parse_digit 5. replace (10 * Z.pos a + 5) with (Z.pos (5 + 10 * a)) by lia.
    apply IHu.
  - parse_digit 6. replace (10 * Z.pos a + 6) with (Z.pos (6 + 10 * a)) by lia.
    apply IHu.
  - parse_digit 7. replace (10 * Z.pos a + 7) with (Z.pos (7 + 10 * a)) by lia.
    apply IHu.
  - parse_digit 8. replace (10 * Z.pos a + 8) with (Z.pos (8 + 10 * a)) by lia.
    apply IHu.
  - parse_digit 9. replace (10 * Z.pos a + 9) with (Z.pos (9 + 10 * a)) by lia.
    apply IHu.
Qed.

Lemma parse_digits_of_uint_zero u :
  parse_digits 10 (NilEmpty.string_of_uint u) (Some 0) =
    Some (Z.of_N (Pos.of_uint u)).
Proof.
  induction u; cbn [NilEmpty.string_of_uint Pos.of_uint]; [reflexivity|..].
  - parse_digit 0. exact IHu.
  - parse_digit 1. apply (parse_digits_of_uint_acc u 1).
  - parse_digit 2. apply (parse_digits_of_uint_acc u 2).
  - parse_digit 3. apply (parse_digits_of_uint_acc u 3).
  - parse_digit 4. apply (parse_digits_of_uint_acc u 4).
  - parse_digit 5. apply (parse_digits_of_uint_acc u 5).
  - parse_digit 6. apply (parse_digits_of_uint_acc u 6).
  - parse_digit 7. apply (parse_digits_of_uint_acc u 7).
  - parse_digit 8. apply (parse_digits_of_uint_acc u 8).
  - parse_digit 9. apply (parse_digits_of_uint_acc u 9).
Qed.

Lemma parse_digits_of_uint u :
  parse_digits 10 (NilZero.string_of_uint u) None =
    Some (Z.of_N (Pos.of_uint u)).
Proof.
  destruct u; cbn [NilZero.string_of_uint NilEmpty.string_of_uint Pos.of_uint];
    [reflexivity|..].
  - parse_digit 0. apply parse_digits_of_uint_zero.
  - parse_digit 1. apply (parse_digits_of_uint_acc u 1).
  - parse_digit 2. apply (parse_digits_of_uint_acc u 2).
  - parse_digit 3. apply (parse_digits_of_uint_acc u 3).
  - parse_digit 4. apply (parse_digits_of_uint_acc u 4).
  - parse_digit 5. apply (parse_digits_of_uint_acc u 5).
  - parse_digit 6. apply (parse_digits_of_uint_acc u 6).
  - parse_digit 7. apply (parse_digits_of_uint_acc u 7).
  - parse_digit 8. apply (parse_digits_of_uint_acc u 8).
  - parse_digit 9. apply (parse_digits_of_uint_acc u 9).
Qed.

Lemma digits_left_alone u :
  trim_start (NilZero.string_of_uint u) = NilZero.string_of_uint u /\
  strip_sign (NilZero.string_of_uint u) = (1, NilZero.string_of_uint u) /\
  strip_hex_prefix (NilZero.string_of_uint u) = (10, NilZero.string_of_uint u).
Proof.
  destruct u as [|u|u|u|u|u|u|u|u|u|u]; repeat split;
    destruct u; reflexivity.
Qed.

Lemma parseInt_digits u :
  parseInt (JStr (NilZero.string_of_uint u)) = Int (Z.of_N (Pos.of_uint u)).
Proof.
  unfold parseInt. cbn [ToString].
  destruct (digits_left_alone u) as [-> [-> ->]].
  rewrite parse_digits_of_uint. f_equal. lia.
Qed.

Lemma parseInt_JNum z : parseInt (JNum z) = Int z.
Proof.
  unfold parseInt. cbn [ToString]. unfold NilZero.string_of_int.
  destruct z as [|p|p]; cbn [Z.to_int].
  - reflexivity.
  - destruct (digits_left_alone (Pos.to_uint p)) as [-> [-> ->]].
    rewrite parse_digits_of_uint, DecimalPos.Unsigned.of_to. f_equal.
  - cbn [trim_start].
    replace (is_StrWhiteSpaceChar "-") with false by reflexivity.
    cbn [strip_sign].
    destruct (digits_left_alone (Pos.to_uint p)) as [_ [_ ->]].
    rewrite parse_digits_of_uint, DecimalPos.Unsigned.of_to. f_equal.
Qed.

Lemma string_of_uint_not_empty u :
  String.eqb (NilZero.string_of_uint u) EmptyString = false.
Proof. destruct u; reflexivity. Qed.

(** X3.  [parseInt] reads back the decimal form of an integer.  So an
    [updateThreshold] event that carries a non-zero safe integer [n], as a
    number or as its decimal string, sets the alert threshold to exactly [n]
    and broadcasts [thresholdUpdated] with [n]. *)
Theorem updateThreshold_sets_integer_threshold (n : Z) (st : state) :
  n <> 0 -> Z.abs n < 2 ^ 53 ->
  parseInt (JNum n) = Int n /\
  parseInt (JStr (ToString (JNum n))) = Int n /\
  (forall v,
     v = JNum n \/ v = JStr (ToString (JNum n)) ->
     let st' := on_updateThreshold (JObj [("threshold", v)]) st in
     ALERT_THRESHOLD st' = Int n /\
     trace st' = trace st ++ [io_emit (thresholdUpdated (Int n))]).
Proof.
  intros Hn _.
  assert (Hstr : parseInt (JStr (ToString (JNum n))) = Int n).
  { transitivity (parseInt (JNum n)); [reflexivity|apply parseInt_JNum]. }
  split; [apply parseInt_JNum|]. split; [exact Hstr|].
  intros v Hv st'. unfold st', on_updateThreshold.
  cbn [truthy get assoc String.eqb Ascii.eqb Bool.eqb andb].
  assert (Htruthy : truthy v = true).
  { destruct Hv as [-> | ->]; cbn [truthy].
    - now destruct (Z.eqb_spec n 0).
    - cbn [ToString]. unfold NilZero.string_of_int.
      destruct (Z.to_int n); cbn [String.eqb];
        now rewrite ?string_of_uint_not_empty. }
  replace (get (JObj [("threshold", v)]) "threshold") with v by reflexivity.
  rewrite Htruthy. cbn [andb].
  assert (Hp : parseInt v = Int n).
  { destruct Hv as [-> | ->]; [apply parseInt_JNum|exact Hstr]. }
  cbn. now rewrite Hp.
Qed.

(** X3 for the threshold 25. *)
Lemma updateThreshold_sets_25 :
  ALERT_THRESHOLD (on_updateThreshold (JObj [("threshold", JStr "25")]) init)
    = Int 25.
Proof.
  destruct (updateThreshold_sets_integer_threshold 25 init
              ltac:(discriminate) ltac:(reflexivity)) as [_ [_ H]].
  destruct (H (JStr "25") (or_intror eq_refl)) as [H1 _]. exact H1.
Defined.

(** X4.  An [updateThreshold] event whose truthy [threshold] does not start
    with a number makes the threshold [NaN], broadcasts that, and from then
    on no count raises an alert at any time, until the threshold is updated
    again. *)
Theorem unparsable_threshold_silences_alerts (data : jsval) (st : state) :
  truthy data = true ->
  truthy (get data "threshold") = true ->
  parseInt (get data "threshold") = NaN ->
  let st' := on_updateThreshold data st in
  ALERT_THRESHOLD st' = NaN /\
  trace st' = trace st ++ [io_emit (thresholdUpdated NaN)] /\
  (forall count now now', check_alert count now now' st' = st') /\
  (forall rf now now', on_predict rf now now' st' = st').
Proof.
  intros Hd Ht Hp st'.
  assert (Hst' : st' = log (io_emit (thresholdUpdated NaN))
                         (set_ALERT_THRESHOLD NaN st)).
  { unfold st', on_updateThreshold. rewrite Hd, Ht, Hp. reflexivity. }
  rewrite Hst'. repeat split.
Qed.

(** X4 for the threshold ["abc"]. *)
Lemma threshold_abc_silences_alerts :
  parseInt (JStr "abc") = NaN /\
  check_alert 1000000 1762000000000 1762000000000
    (on_updateThreshold (JObj [("threshold", JStr "abc")]) init) =
  on_updateThreshold (JObj [("threshold", JStr "abc")]) init.
Proof.
  split; [reflexivity|].
  destruct (unparsable_threshold_silences_alerts
              (JObj [("threshold", JStr "abc")]) init
              eq_refl eq_refl eq_refl) as [_ [_ [H _]]].
  apply H.
Defined.

(* ===================================================================== *)
(** * Markers *)
(* ===================================================================== *)

Lemma SF_not_lt_le A B :
  SFeqb A A = true -> SFeqb B B = true -> SFltb A B = false ->
  SFleb B A = true.
Proof.
  unfold SFeqb, SFltb, SFleb.
  destruct A as [sa|sa| |sa ma ea], B as [sb|sb| |sb mb eb]; cbn;
    try discriminate; try reflexivity;
    try (destruct sa; try destruct sb; cbn; congruence).
  intros _ _.
  destruct sa, sb; cbn; try congruence.
  - rewrite (Z.compare_antisym ea eb).
    destruct (Z.compare ea eb); cbn; try congruence.
    change (Pos.compare_cont Eq mb ma)
      with (Pos.compare_cont (CompOpp Eq) mb ma).
    rewrite <- (Pos.compare_cont_antisym ma mb Eq).
    destruct (Pos.compare_cont Eq ma mb); cbn; congruence.
  - rewrite (Z.compare_antisym ea eb).
    destruct (Z.compare ea eb); cbn; try congruence.
    change (Pos.compare_cont Eq mb ma)
      with (Pos.compare_cont (CompOpp Eq) mb ma).
    rewrite <- (Pos.compare_cont_antisym ma mb Eq).
    destruct (Pos.compare_cont Eq ma mb); cbn; congruence.
Qed.

Lemma float_not_lt_le a b :
  PrimFloat.is_nan a = false -> PrimFloat.is_nan b = false ->
  PrimFloat.ltb a b = false -> PrimFloat.leb b a = true.
Proof.
  unfold PrimFloat.is_nan.
  rewrite !negb_false_iff, !FloatAxioms.eqb_spec, FloatAxioms.ltb_spec,
    FloatAxioms.leb_spec.
  apply SF_not_lt_le.
Qed.

Lemma float_lt_le a b :
  PrimFloat.ltb a b = true -> PrimFloat.leb a b = true.
Proof.
  rewrite FloatAxioms.ltb_spec, FloatAxioms.leb_spec. unfold SFltb, SFleb.
  destruct (SFcompare _ _) as [[| |]|]; congruence.
Qed.

Lemma clamp_5_20 (v : float) :
  let r := Math_min 20 (Math_max 5 v) in
  (PrimFloat.is_nan v = true /\ PrimFloat.is_nan r = true) \/
  (PrimFloat.is_nan v = false /\
   PrimFloat.leb 5 r = true /\ PrimFloat.leb r 20 = true).
Proof.
  cbv zeta. unfold Math_max.
  change (PrimFloat.is_nan 5) with false. cbn [orb].
  destruct (PrimFloat.is_nan v) eqn:Hv.
  { left. split; reflexivity. }
  right. split; [reflexivity|].
  assert (H5 : Math_min 20 5 = 5%float) by reflexivity.
  destruct (PrimFloat.ltb 5 v) eqn:H1.
  - unfold Math_min. change (PrimFloat.is_nan 20) with false.
    rewrite Hv. cbn [orb].
    destruct (PrimFloat.ltb 20 v) eqn:H2; [split; reflexivity|].
    assert (Hr : (if PrimFloat.ltb v 20 then v
                  else if PrimFloat.get_sign 20 then 20%float else v) = v).
    { destruct (PrimFloat.ltb v 20); reflexivity. }
    rewrite Hr. split; [now apply float_lt_le|].
    now apply float_not_lt_le.
  - assert (Hm : (if PrimFloat.ltb v 5 then 5%float
                  else if PrimFloat.get_sign 5 then v else 5%float) = 5%float).
    { destruct (PrimFloat.ltb v 5); reflexivity. }
    rewrite Hm, H5. split; reflexivity.
Qed.

(** X5.  The radius of a marker is clamped: whatever the width and height of
    a detection, [dotSize] is a number from 5 to 20, unless the square root
    it starts from is not a number (a field is missing, or the product of
    width and height is negative or [NaN]), and then it is [NaN]. *)
Theorem dotSize_between_5_and_20 (p : Pred.t) :
  let v := PrimFloat.div
             (PrimFloat.sqrt (PrimFloat.mul (to_number (Pred.width p))
                                            (to_number (Pred.height p)))) 5 in
  (PrimFloat.is_nan v = true /\ PrimFloat.is_nan (dotSize p) = true) \/
  (PrimFloat.is_nan v = false /\
   PrimFloat.leb 5 (dotSize p) = true /\ PrimFloat.leb (dotSize p) 20 = true).
Proof. intros v. apply (clamp_5_20 v). Qed.

Lemma arcs_of_draw_dot_guarded pr :
  List.length (filter is_arc (draw_dot_guarded [] pr)) =
    if drawable pr then 1%nat else 0%nat.
Proof.
  unfold draw_dot_guarded, draw_dot, drawable. destruct pr as [|p];
    [reflexivity|].
  destruct (truthy_number (Pred.x p) && truthy_number (Pred.y p)); reflexivity.
Qed.

Lemma arcs_of_flat_map preds :
  List.length (filter is_arc (flat_map (draw_dot_guarded []) preds)) =
    List.length (filter drawable preds).
Proof.
  induction preds as [|pr preds IH]; [reflexivity|].
  cbn [flat_map filter]. rewrite filter_app, length_app, IH,
    arcs_of_draw_dot_guarded.
  destruct (drawable pr); reflexivity.
Qed.

(** X6.  When the image decodes, [drawDotsOnImage] returns a canvas whatever
    the detections are, and the canvas holds exactly one arc for each
    detection that is an object with non-zero [x] and [y]; [null] entries
    and detections without coordinates add none.  When decoding throws, the
    same error is rethrown. *)
Theorem overlay_draws_one_arc_per_located_detection :
  (forall img preds,
     exists c,
       drawDotsOnImage (Ok img) preds = Ok c /\
       List.length (filter is_arc c) = List.length (filter drawable preds)) /\
  (forall message preds,
     drawDotsOnImage (Throw message) preds = Throw message).
Proof.
  split; [|reflexivity].
  intros img preds. eexists. split; [reflexivity|].
  rewrite fold_draw_dot_guarded, filter_app, length_app, arcs_of_flat_map.
  reflexivity.
Qed.

Lemma forEach_draw_heat img preds ctx :
  forEach (draw_heat img) preds ctx =
    if existsb is_null preds then Throw (TypeError_null "x")
    else Ok (ctx ++ flat_map
                      (fun pr => match draw_heat img [] pr with
                                 | Ok c => c
                                 | Throw _ => []
                                 end) preds).
Proof.
  revert ctx. induction preds as [|pr preds IH]; intros ctx;
    cbn [forEach existsb flat_map].
  - now rewrite app_nil_r.
  - destruct pr as [|p]; [reflexivity|]. cbn [is_null orb].
    unfold draw_heat at 1 3.
    destruct (truthy_number (Pred.x p) && truthy_number (Pred.y p)).
    + rewrite IH. destruct (existsb is_null preds); [reflexivity|].
      cbn [app]. now rewrite <- app_assoc.
    + rewrite IH. now destruct (existsb is_null preds).
Qed.

Lemma arcs_of_heat img preds :
  existsb is_null preds = false ->
  List.length
    (filter is_arc
       (flat_map (fun pr => match draw_heat img [] pr with
                            | Ok c => c
                            | Throw _ => []
                            end) preds)) =
    List.length (filter drawable preds).
Proof.
  induction preds as [|pr preds IH]; [reflexivity|].
  destruct pr as [|p]; [discriminate|]. cbn [existsb is_null orb].
  intros H. cbn [flat_map filter]. rewrite filter_app, length_app, IH by exact H.
  unfold draw_heat, drawable.
  destruct (truthy_number (Pred.x p) && truthy_number (Pred.y p)); reflexivity.
Qed.

(** X7.  When the image decodes, [generateHeatmap] throws exactly when some
    entry of the detections is [null], and then with the [TypeError] of
    reading [x] of [null]; otherwise it returns a canvas with one arc for
    each detection that has non-zero [x] and [y], the same detections that
    [drawDotsOnImage] marks. *)
Theorem heatmap_fails_exactly_on_null_entries (img : Img.t) (preds : list pred) :
  (existsb is_null preds = true ->
   generateHeatmap (Ok img) preds = Throw (TypeError_null "x")) /\
  (existsb is_null preds = false ->
   exists heat dots,
     generateHeatmap (Ok img) preds = Ok heat /\
     drawDotsOnImage (Ok img) preds = Ok dots /\
     List.length (filter is_arc heat) = List.length (filter drawable preds) /\
     List.length (filter is_arc heat) = List.length (filter is_arc dots)).
Proof.
  unfold generateHeatmap. rewrite forEach_draw_heat. split; intros H; rewrite H.
  - reflexivity.
  - do 2 eexists. split; [reflexivity|]. split; [reflexivity|].
    rewrite fold_draw_dot_guarded, !filter_app, !length_app, arcs_of_flat_map,
      arcs_of_heat by exact H.
    split; reflexivity.
Qed.

(* ===================================================================== *)
(** * Counts *)
(* ===================================================================== *)

(** X8.  The count of a live frame and the count [POST /predict] reports for
    the same output agree exactly when the service gave a non-zero count or
    no detections; otherwise the live frame reports the number of detections
    and the upload route 0.  The video paths always report what the upload
    route reports. *)
Theorem counts_of_the_call_sites (o : output) :
  (frame_count o = predict_count o <->
   (exists c, count_objects o = Some c /\ c <> 0) \/ predictions_of o = []) /\
  (frame_count o <> predict_count o ->
   frame_count o = Z.of_nat (List.length (predictions_of o)) /\
   predict_count o = 0) /\
  (forall rf, video_count rf = predict_count (first_output rf)).
Proof.
  unfold frame_count, predict_count. split; [|split].
  - destruct (count_objects o) as [c|].
    + destruct (Z.eqb_spec c 0) as [->|Hc].
      * split.
        -- intros H. right. destruct (predictions_of o); [reflexivity|].
           cbn in H. lia.
        -- intros [[c [[= <-] Hc]]| ->]; [contradiction|reflexivity].
      * split; [|reflexivity]. intros _. left. now exists c.
    + split.
      * intros H. right. destruct (predictions_of o); [reflexivity|].
        cbn in H. lia.
      * intros [[c [[=] _]]| ->]. reflexivity.
  - destruct (count_objects o) as [c|].
    + destruct (Z.eqb_spec c 0) as [->|Hc]; [now split|contradiction].
    + now split.
  - intros rf. unfold video_count, first_output.
    destruct (outputs rf) as [[|o' l]|]; try reflexivity.
    destruct (count_objects o') as [c|]; [|reflexivity].
    now destruct (Z.eqb_spec c 0) as [->|].
Qed.

(* ===================================================================== *)
(** * Video frames *)
(* ===================================================================== *)

Lemma video_frame_body_events total f vs :
  Forall (fun e =>
            nth_error (frameCounts vs) (Z.to_nat (frameIndex e)) =
              Some (video_frame_count e) /\
            0 <= frameIndex e /\ totalFrames e = total)
         (video_emitted vs) ->
  Forall (fun e =>
            nth_error (frameCounts (video_frame_body total f vs))
                      (Z.to_nat (frameIndex e)) =
              Some (video_frame_count e) /\
            0 <= frameIndex e /\ totalFrames e = total)
         (video_emitted (video_frame_body total f vs)).
Proof.
  intros H.
  assert (Hpush : forall c l evs,
            Forall (fun e =>
                      nth_error l (Z.to_nat (frameIndex e)) =
                        Some (video_frame_count e) /\
                      0 <= frameIndex e /\ totalFrames e = total) evs ->
            Forall (fun e =>
                      nth_error (l ++ [c]) (Z.to_nat (frameIndex e)) =
                        Some (video_frame_count e) /\
                      0 <= frameIndex e /\ totalFrames e = total) evs).
  { intros c l evs. apply Forall_impl. intros e [H1 H2]. split; [|exact H2].
    rewrite nth_error_app1; [exact H1|].
    apply nth_error_Some. congruence. }
  unfold video_frame_body, frameCounts_push.
  destruct (inference f) as [rf|message]; cbn [frameCounts video_emitted].
  - assert (Hnew :
      Forall (fun e =>
                nth_error (frameCounts vs ++ [video_count rf])
                          (Z.to_nat (frameIndex e)) =
                  Some (video_frame_count e) /\
                0 <= frameIndex e /\ totalFrames e = total)
             (video_emitted vs ++
                [videoFrameProcessed
                   (Z.of_nat (List.length (frameCounts vs ++ [video_count rf]))
                    - 1) (video_count rf) total])).
    { apply Forall_app. split; [now apply Hpush|].
      constructor; [|constructor]. cbn [frameIndex video_frame_count totalFrames].
      rewrite length_app. cbn [List.length]. split; [|split; [lia|reflexivity]].
      replace (Z.to_nat (Z.of_nat (List.length (frameCounts vs) + 1) - 1))
        with (List.length (frameCounts vs)) by lia.
      now rewrite nth_error_app2, Nat.sub_diag by lia. }
    destruct (unlink_file f); cbn [frameCounts video_emitted];
      [exact Hnew|now apply Hpush].
  - now apply Hpush.
Qed.

Lemma video_frame_body_counts total f vs :
  frameCounts (video_frame_body total f vs) =
    frameCounts vs ++ frame_file_count f ::
      (if is_Ok (inference f) && negb (is_Ok (unlink_file f)) then [0] else []) /\
  video_emitted (video_frame_body total f vs) =
    video_emitted vs ++
      (if is_Ok (inference f)
       then [videoFrameProcessed (Z.of_nat (List.length (frameCounts vs)))
               (frame_file_count f) total]
       else []).
Proof.
  unfold video_frame_body, frame_file_count, frameCounts_push.
  destruct (inference f) as [rf|message]; cbn [is_Ok andb negb frameCounts
                                               video_emitted].
  - rewrite length_app. cbn [List.length].
    replace (Z.of_nat (List.length (frameCounts vs) + 1) - 1)
      with (Z.of_nat (List.length (frameCounts vs))) by lia.
    destruct (unlink_file f); cbn [is_Ok negb frameCounts video_emitted];
      split; try reflexivity.
    now rewrite <- app_assoc.
  - split; [reflexivity|]. now rewrite app_nil_r.
Qed.

Lemma video_frames_loop_spec total files vs0 :
  Forall (fun e =>
            nth_error (frameCounts vs0) (Z.to_nat (frameIndex e)) =
              Some (video_frame_count e) /\
            0 <= frameIndex e /\ totalFrames e = total)
         (video_emitted vs0) ->
  let vs := fst (video_frames_loop total files vs0) in
  Forall (fun e =>
            nth_error (frameCounts vs) (Z.to_nat (frameIndex e)) =
              Some (video_frame_count e) /\
            0 <= frameIndex e /\ totalFrames e = total)
         (video_emitted vs) /\
  (is_Ok (snd (video_frames_loop total files vs0)) =
     forallb (fun f => is_Ok (read_file f)) files) /\
  (forallb (fun f => is_Ok (read_file f)) files = true ->
   List.length (frameCounts vs) =
     (List.length (frameCounts vs0) + List.length files +
      List.length
        (filter (fun f => is_Ok (inference f) && negb (is_Ok (unlink_file f)))
           files))%nat /\
   List.length (video_emitted vs) =
     (List.length (video_emitted vs0) +
      List.length (filter (fun f => is_Ok (inference f)) files))%nat /\
   (forallb (fun f => is_Ok (unlink_file f)) files = true ->
    frameCounts vs = frameCounts vs0 ++ map frame_file_count files)).
Proof.
  revert vs0. induction files as [|f files IH]; intros vs0 H0; cbv zeta.
  - cbn. split; [exact H0|]. split; [reflexivity|]. intros _.
    split; [lia|]. split; [lia|]. intros _. now rewrite app_nil_r.
  - cbn [video_frames_loop forallb filter map].
    destruct (read_file f) as [u|message]; cbn [is_Ok andb].
    + specialize (IH (video_frame_body total f vs0)
                     (video_frame_body_events total f vs0 H0)).
      cbv zeta in IH. destruct IH as [IH1 [IH2 IH3]].
      split; [exact IH1|]. split; [exact IH2|]. intros Hread.
      destruct (IH3 Hread) as [L1 [L2 L3]].
      destruct (video_frame_body_counts total f vs0) as [C1 C2].
      rewrite L1, L2, C1, C2, !length_app. cbn [List.length].
      destruct (is_Ok (inference f)), (is_Ok (unlink_file f));
        cbn [andb negb List.length app]; (split; [lia|]); (split; [lia|]);
        intros Hu; try discriminate Hu;
        rewrite (L3 Hu), C1; cbn [andb negb]; now rewrite <- app_assoc.
    + cbn. split; [exact H0|]. split; [reflexivity|]. discriminate.
Qed.

(** X9.  [processVideoFrames] resolves exactly when every frame file can be
    read and the temporary directory can be removed.  It then resolves with
    one count for each frame file, plus one spurious 0 for each frame whose
    inference succeeded but whose file could not be deleted; when every file
    can be deleted the array is, in order, the count of each frame, with 0
    for a frame whose inference failed. *)
Theorem processVideoFrames_counts (files : list frame_file) (rmdir : result unit) :
  let r := snd (processVideoFrames files rmdir) in
  is_Ok r = forallb (fun f => is_Ok (read_file f)) files && is_Ok rmdir /\
  (forall counts,
     r = Ok counts ->
     List.length counts =
       (List.length files +
        List.length
          (filter (fun f => is_Ok (inference f) && negb (is_Ok (unlink_file f)))
             files))%nat /\
     (forallb (fun f => is_Ok (unlink_file f)) files = true ->
      counts = map frame_file_count files)).
Proof.
  cbv zeta. unfold processVideoFrames.
  destruct (video_frames_loop_spec (List.length files) files
              (mkVideoState [] []) (Forall_nil _)) as [_ [H2 H3]].
  cbv zeta in H3.
  destruct (video_frames_loop (List.length files) files (mkVideoState [] []))
    as [vs r'] eqn:E.
  cbn [fst snd] in *. rewrite <- H2.
  destruct r' as [u|message]; cbn [is_Ok andb snd] in *.
  - destruct rmdir as [u'|message]; cbn [is_Ok snd].
    + split; [reflexivity|]. intros counts [= <-].
      destruct (H3 (eq_sym H2)) as [L1 [_ L3]]. split; [exact L1|exact L3].
    + split; [reflexivity|]. discriminate.
  - split; [reflexivity|]. discriminate.
Qed.

(** X10.  Every [videoFrameProcessed] event [processVideoFrames] broadcasts
    carries the number of frame files as [totalFrames] and a [frameIndex]
    at which the resolved array holds the event's count; when every frame
    file can be read there is one event for each frame whose inference
    succeeded and none for the others. *)
Theorem videoFrameProcessed_indexes_its_count
  (files : list frame_file) (rmdir : result unit) :
  let events := fst (processVideoFrames files rmdir) in
  let r := snd (processVideoFrames files rmdir) in
  Forall (fun e => 0 <= frameIndex e /\ totalFrames e = List.length files)
         events /\
  (forall counts,
     r = Ok counts ->
     Forall (fun e =>
               nth_error counts (Z.to_nat (frameIndex e)) =
                 Some (video_frame_count e)) events) /\
  (forallb (fun f => is_Ok (read_file f)) files = true ->
   List.length events =
     List.length (filter (fun f => is_Ok (inference f)) files)).
Proof.
  cbv zeta. unfold processVideoFrames.
  destruct (video_frames_loop_spec (List.length files) files
              (mkVideoState [] []) (Forall_nil _)) as [H1 [H2 H3]].
  cbv zeta in H1, H3.
  destruct (video_frames_loop (List.length files) files (mkVideoState [] []))
    as [vs r'] eqn:E.
  cbn [fst snd] in *.
  assert (Hev : fst (match r' with
                     | Ok _ => match rmdir with
                               | Ok _ => (video_emitted vs, Ok (frameCounts vs))
                               | Throw m => (video_emitted vs, Throw m)
                               end
                     | Throw m => (video_emitted vs, Throw m)
                     end) = video_emitted vs).
  { destruct r'; [destruct rmdir|]; reflexivity. }
  rewrite Hev. split; [|split].
  - eapply Forall_impl; [|exact H1]. cbn. tauto.
  - intros counts Hc. destruct r'; [destruct rmdir|]; cbn [snd] in Hc;
      try discriminate Hc.
    injection Hc as <-. eapply Forall_impl; [|exact H1]. cbn. tauto.
  - intros Hread. destruct (H3 Hread) as [_ [L2 _]]. exact L2.
Qed.

(* ===================================================================== *)
(** * What a finished frame and a model test report *)
(* ===================================================================== *)

(** X18.  When the renderers of a live frame settle, a [prediction] is
    broadcast for it and its slot is released right after that.  The
    broadcast is a success, carrying the count, both images, the detections
    and the threshold of that moment, exactly when both decodings succeed
    and no detection is [null]; otherwise it is a failure carrying the
    message of the first error. *)
Theorem live_frame_broadcast
  (MAX_CONCURRENT : number) (Buffer_from : jsval -> option string) (st : state)
  (k id : nat) (it : item) (count : Z) (preds : list pred)
  (dots heat : result Img.t) :
  nth_error (pending st) k = Some (mkTask id it (AwaitRender count preds)) ->
  let st' := step MAX_CONCURRENT Buffer_from (render_done k dots heat) st in
  exists m ext,
    trace st' = trace st ++ io_emit m :: Release id :: ext /\
    match dots, heat with
    | Ok _, Ok _ =>
        if existsb is_null preds
        then m = prediction_fail (TypeError_null "x")
        else exists c1 c2,
               drawDotsOnImage dots preds = Ok c1 /\
               generateHeatmap heat preds = Ok c2 /\
               m = prediction_ok count c1 c2 preds (ALERT_THRESHOLD st)
    | Ok _, Throw e | Throw e, _ =>
        m = prediction_fail (message_or e "Inference error")
    end.
Proof.
  intros Hk st'. unfold st'. cbn [step]. unfold on_render_done. rewrite Hk.
  match goal with
  | |- context [finally_block _ _ id ?s] =>
      destruct (trace_grows_finally_block MAX_CONCURRENT Buffer_from id s)
        as [ext Hext]; rewrite Hext; clear Hext
  end.
  destruct dots as [d|e].
  - destruct heat as [h|e].
    + unfold generateHeatmap. rewrite forEach_draw_heat.
      destruct (existsb is_null preds).
      * eexists _, ext. cbn. rewrite <- app_assoc. split; reflexivity.
      * eexists _, ext. cbn. rewrite <- app_assoc. split; [reflexivity|].
        eexists _, _. repeat split.
    + eexists _, ext. cbn. rewrite <- app_assoc. split; reflexivity.
  - eexists _, ext. cbn. rewrite <- app_assoc. split; reflexivity.
Qed.

(** X18 for a frame with one detection. *)
Lemma live_frame_broadcast_example :
  let data := JObj [("imageBase64", JStr "AAAA")] in
  let good := PObj (Pred.mk (Some 10%float) (Some 20%float) (Some 4%float)
                            (Some 4%float) (Some 0.9%float)) in
  let rf := mkResponse (Some [mkOutput (Some 1) (Some [good])]) in
  let st := run default_MAX_CONCURRENT Buffer_from_strict
              [frame 1%nat data; inference_done 0 (Ok rf) 1000 1000] init in
  let img := Ok (Img.mk 640 480) in
  exists m ext,
    trace (step default_MAX_CONCURRENT Buffer_from_strict
             (render_done 0 img img) st) =
      trace st ++ io_emit m :: Release 0 :: ext.
Proof.
  intros data good rf st img.
  destruct (live_frame_broadcast default_MAX_CONCURRENT Buffer_from_strict
              st 0 0 (mkItem 1 (JStr "AAAA")) 1 [good] img img
              ltac:(vm_compute; reflexivity)) as [m [ext [H _]]].
  exists m, ext. exact H.
Defined.

(** X19.  A model test succeeds exactly when the request carries an image
    that [Buffer.from] accepts, the inference call returns and the image
    decodes.  The detections play no part in that: a response with [null]
    entries, which fails a live frame, passes a model test, and the reply
    then carries the live count and an overlay with one arc for each located
    detection. *)
Theorem testModel_succeeds_whatever_the_detections
  (Buffer_from : jsval -> option string) (data : jsval)
  (r : result response) (dots : result Img.t) :
  ((exists t c a p, on_testModel Buffer_from data r dots =
                      testPrediction_ok t c a p) <->
   truthy data = true /\ truthy (get data "imageBase64") = true /\
   Buffer_from (get data "imageBase64") = None /\
   is_Ok r = true /\ is_Ok dots = true) /\
  (forall t c a p,
     on_testModel Buffer_from data r dots = testPrediction_ok t c a p ->
     exists rf,
       r = Ok rf /\ t = get data "type" /\
       c = frame_count (first_output rf) /\
       p = predictions_of (first_output rf) /\
       List.length (filter is_arc a) = List.length (filter drawable p)) /\
  (truthy data = false \/ truthy (get data "imageBase64") = false ->
   on_testModel Buffer_from data r dots =
     testPrediction_fail "No test data provided").
Proof.
  unfold on_testModel.
  destruct (truthy data); cbn [negb orb];
    [destruct (truthy (get data "imageBase64")); cbn [negb orb]|].
  - destruct (Buffer_from (get data "imageBase64")) as [message|].
    { split; [split|split].
      - intros [t [c [a [p H]]]]. discriminate H.
      - intros [_ [_ [H _]]]. discriminate H.
      - intros t c a p H. discriminate H.
      - intros [H|H]; discriminate H. }
    destruct r as [rf|message].
    2: { split; [split|split].
         - intros [t [c [a [p H]]]]. discriminate H.
         - intros [_ [_ [_ [H _]]]]. discriminate H.
         - intros t c a p H. discriminate H.
         - intros [H|H]; discriminate H. }
    destruct dots as [img|message].
    2: { split; [split|split].
         - intros [t [c [a [p H]]]]. discriminate H.
         - intros [_ [_ [_ [_ H]]]]. discriminate H.
         - intros t c a p H. discriminate H.
         - intros [H|H]; discriminate H. }
    cbv zeta. split; [split|split].
    + intros _. repeat split.
    + intros _. cbn [drawDotsOnImage]. eexists _, _, _, _. reflexivity.
    + intros t c a p H. cbn [drawDotsOnImage] in H.
      injection H as <- <- <- <-. exists rf. repeat split.
      rewrite fold_draw_dot_guarded, filter_app, length_app, arcs_of_flat_map.
      reflexivity.
    + intros [H|H]; discriminate H.
  - split; [split|split].
    + intros [t [c [a [p H]]]]. discriminate H.
    + intros [_ [H _]]. discriminate H.
    + intros t c a p H. discriminate H.
    + reflexivity.
  - split; [split|split].
    + intros [t [c [a [p H]]]]. discriminate H.
    + intros [H _]. discriminate H.
    + intros t c a p H. discriminate H.
    + reflexivity.
Qed.

(* ===================================================================== *)
(** * More concrete runs *)
(* ===================================================================== *)

(** X15 at the default limit: the third of three frames waits, and leaves
    the backlog when the first call fails. *)
Lemma completion_advances_backlog_example :
  let data := JObj [("imageBase64", JStr "AAAA")] in
  let st := run default_MAX_CONCURRENT Buffer_from_strict
              [frame 1%nat data; frame 2%nat data; frame 3%nat data] init in
  queue st <> [] /\
  (List.length
     (queue (step default_MAX_CONCURRENT Buffer_from_strict
               (inference_done 0 (Throw "timeout") 0 0) st))
   < List.length (queue st))%nat.
Proof.
  intros data st.
  assert (Hq : queue st <> []) by (vm_compute; discriminate).
  destruct (completion_advances_backlog default_MAX_CONCURRENT
              Buffer_from_strict
              [frame 1%nat data; frame 2%nat data; frame 3%nat data] Hq)
    as [H _].
  split; [exact Hq|].
  apply (H 0%nat 0%nat (mkItem 1 (JStr "AAAA"))).
  vm_compute. reflexivity.
Defined.

(** X17 for two uploads whose counts both exceed the threshold, one second
    apart: one alert. *)
Lemma one_alert_for_two_uploads :
  let rf := mkResponse (Some [mkOutput (Some 20) None]) in
  let ls := [predict rf 1762000000000 1762000000000;
             predict rf 1762000001000 1762000001000] in
  Forall (clocks_within 1762000000000) ls /\
  (count_events is_alert
     (trace (run default_MAX_CONCURRENT Buffer_from_strict ls init)) <= 1)%nat.
Proof.
  intros rf ls.
  assert (Hls : Forall (clocks_within 1762000000000) ls).
  { repeat constructor; cbn; unfold ALERT_COOLDOWN; lia. }
  split; [exact Hls|].
  apply (at_most_one_alert_per_cooldown default_MAX_CONCURRENT
           Buffer_from_strict
           1762000000000 ls init Hls).
Defined.

(* ===================================================================== *)
(** * The upload route *)
(* ===================================================================== *)

Ltac route_finish :=
  cbn [drawDotsOnImage generateHeatmap fst snd status body];
  repeat split; intros;
  repeat match goal with
         | H : exists _, _ |- _ => destruct H
         | H : _ /\ _ |- _ => destruct H
         | H : _ \/ _ |- _ => destruct H
         end;
  try discriminate; try congruence; auto.

(** X20.  [POST /predict] answers 400 exactly when no file was uploaded, and
    200 exactly when the file can be read, the service answers, both
    decodings succeed and no detection is [null]; every other request gets
    500.  The shared state is touched only through the alert check, which
    runs as soon as the service has answered, also for a request that then
    fails in rendering and is answered with 500. *)
Theorem predict_route_status
  (file : option (string * result unit)) (r : result response)
  (dots heat : result Img.t) (now now' : Z) (st : state) :
  let res := fst (predict_route file r dots heat now now' st) in
  let st' := snd (predict_route file r dots heat now now' st) in
  (status res = 400 <-> file = None) /\
  (status res = 200 <->
   exists filename u rf d h,
     file = Some (filename, Ok u) /\ r = Ok rf /\ dots = Ok d /\ heat = Ok h /\
     existsb is_null (predictions_of (first_output rf)) = false) /\
  (status res = 400 \/ status res = 200 \/ status res = 500) /\
  (forall filename u rf,
     file = Some (filename, Ok u) -> r = Ok rf ->
     st' = on_predict rf now now' st) /\
  (file = None \/ (exists filename e, file = Some (filename, Throw e))
   \/ (exists e, r = Throw e) ->
   st' = st) /\
  (forall originalImage count a h p,
     body res = predict_success originalImage count a h p ->
     exists filename u rf,
       file = Some (filename, Ok u) /\ r = Ok rf /\
       originalImage = String.append "/uploads/" filename /\
       count = predict_count (first_output rf) /\
       p = predictions_of (first_output rf)).
Proof.
  cbv zeta. unfold predict_route.
  destruct file as [[filename [u|e]]|]; [|route_finish..].
  destruct r as [rf|e]; [|route_finish].
  cbv zeta. destruct dots as [d|e]; [|route_finish].
  assert (Hdots : exists c, drawDotsOnImage (Ok d)
                              (predictions_of (first_output rf)) = Ok c)
    by (eexists; reflexivity).
  destruct Hdots as [c ->].
  destruct heat as [h|e]; [|route_finish].
  unfold generateHeatmap. rewrite forEach_draw_heat.
  destruct (existsb is_null (predictions_of (first_output rf))) eqn:Hnull;
    route_finish.
  - exists filename, u, rf, d, h. repeat split. exact Hnull.
  - exists filename, u, rf. repeat split; congruence.
Qed.
